(** * DigiStore: pricing, referral commission, cart and data synchronisation

    A shallow embedding of the checkout, referral and synchronisation code
    of [src/App.tsx] and of the local persistence layer of
    [src/services/dataService.ts].

    JavaScript numbers are modelled as follows: prices and quantities, which
    the catalogue keeps as whole currency units, are [Z]; voucher values,
    commission rates and accumulated earnings, which the code takes from
    [Number(...)] of a form field or a remote column, are [Q]. Where a
    result is rounded to a whole unit ([Math.round] of the referral
    commission), the double-precision computation is carried out as the
    code does it, on IEEE 754 binary64 numbers ([SpecFloat]). Strings are
    Stdlib [string]s; optional fields ([x?: T]) are [option]s. *)

From Stdlib Require Import ZArith QArith Qround Qminmax Lia.
From Stdlib Require Import String Ascii List.
From Stdlib Require Import Floats.SpecFloat.
From stdpp Require Import base gmap strings.
Import ListNotations.

Open Scope Z_scope.

(* ------------------------------------------------------------------ *)
(** ** Data model ([src/types.ts] and the types used by [App.tsx]) *)

Record Product := mkProduct {
  p_id : string;
  p_name : string;
  p_image : string;
  p_category : string;
  p_description : string;
  p_price : Z;
  p_discountPrice : option Z;
  p_fileUrl : option string;
  p_isPopular : option bool;
}.

(** [interface CartItem extends Product { quantity: number }] *)
Record CartItem := mkCartItem {
  ci_product : Product;
  ci_quantity : Z;
}.

Inductive VoucherType := PERCENT | FIXED.

Record Voucher := mkVoucher {
  v_id : string;
  v_code : string;
  v_type : VoucherType;
  v_value : Q;
  v_isActive : bool;
}.

Record Affiliate := mkAffiliate {
  a_id : string;
  a_name : string;
  a_code : string;
  a_password : string;
  a_commissionRate : Q;
  a_totalEarnings : Q;
  a_bankDetails : string;
  a_isActive : bool;
}.

(* ------------------------------------------------------------------ *)
(** ** JavaScript helpers *)

(** Truthiness of an optional number: [undefined] and [0] are falsy. *)
Definition truthy_num (o : option Z) : bool :=
  match o with Some n => negb (Z.eqb n 0) | None => false end.

(** [x || y] on an optional number. *)
Definition or_num (o : option Z) (y : Z) : Z :=
  match o with Some n => if Z.eqb n 0 then y else n | None => y end.

(** Truthiness of an optional string: [null] and [""] are falsy. *)
Definition truthy_str (o : option string) : bool :=
  match o with Some s => negb (String.eqb s EmptyString) | None => false end.

(** [Math.round x] = floor (x + 1/2) (round half up). *)
Definition Math_round (x : Q) : Z := Qfloor (x + (1 # 2)).

(** JavaScript numbers as IEEE 754 binary64 doubles: 53-bit mantissa,
    infinities at exponent 1024. *)
Definition js_prec : Z := 53.
Definition js_emax : Z := 1024.

(** The double nearest to an integer. *)
Definition Number_of_Z (z : Z) : spec_float :=
  binary_normalize js_prec js_emax z 0 false.

(** The double nearest to a rational (round to nearest, ties to even), as
    [Number("2.3")] reads a decimal: the division [num / den] of the
    binary64 division, on the exact numerator and denominator. *)
Definition Number_of_Q (q : Q) : spec_float :=
  let round_pos s n :=
    let '(m, e, l) := SFdiv_core_binary js_prec js_emax (Zpos n) 0 (Zpos (Qden q)) 0 in
    binary_round_aux js_prec js_emax s m e l in
  match Qnum q with
  | Z0 => S754_zero false
  | Zpos n => round_pos false n
  | Zneg n => round_pos true n
  end.

(** The exact value of the finite double [(-1)^s * m * 2^e]. *)
Definition value_of (s : bool) (m : positive) (e : Z) : Q :=
  let v := match e with
           | Zneg n => Zpos m # Pos.pow 2 n
           | _ => inject_Z (Zpos m * 2 ^ e)
           end in
  if s then Qopp v else v.

(** [Math.round] on a double: the integer nearest to its exact value,
    halves rounded up. The model's numbers are finite ([Q]); an infinite or
    NaN double, which would need a product beyond 2^1024, lies outside it
    and is read as 0. *)
Definition js_round (x : spec_float) : Z :=
  match x with
  | S754_finite s m e => Math_round (value_of s m e)
  | _ => 0
  end.

(** [Math.max(0, x)] *)
Definition Math_max0 (x : Q) : Q := if Qle_bool x 0 then 0 else x.

(** [Array.prototype.find] is [List.find]: the first element satisfying
    the predicate. *)

(* ------------------------------------------------------------------ *)
(** ** Pricing ([CustomerCart], App.tsx 961-966) *)

(** [cart.reduce((sum, item) => sum + ((item.discountPrice || item.price)
     * item.quantity), 0)] *)
Definition subTotal (cart : list CartItem) : Z :=
  fold_left (fun sum item =>
      sum + or_num (p_discountPrice (ci_product item)) (p_price (ci_product item))
              * ci_quantity item) cart 0.

(** [appliedVoucher.type === 'PERCENT' ? (subTotal * value) / 100 : value];
    [0] when no voucher is applied. *)
Definition discountAmount (subTotal : Z) (appliedVoucher : option Voucher) : Q :=
  match appliedVoucher with
  | None => 0%Q
  | Some v =>
      match v_type v with
      | PERCENT => (inject_Z subTotal * v_value v / inject_Z 100)%Q
      | FIXED => v_value v
      end
  end.

(** [Math.max(0, subTotal - discountAmount)] *)
Definition total (subTotal : Z) (appliedVoucher : option Voucher) : Q :=
  Math_max0 (inject_Z subTotal - discountAmount subTotal appliedVoucher)%Q.

(* ------------------------------------------------------------------ *)
(** ** Referral commission ([handleCheckout], App.tsx 975-1000) *)

(** [Math.round((subTotal * affiliate.commissionRate) / 100)], the product
    and the quotient computed on doubles. *)
Definition js_commission (subTotal : Z) (commissionRate : Q) : Z :=
  js_round (SFdiv js_prec js_emax
              (SFmul js_prec js_emax (Number_of_Z subTotal) (Number_of_Q commissionRate))
              (Number_of_Z 100)).

(** [{ ...a, totalEarnings: a.totalEarnings + commission }] *)
Definition addEarnings (a : Affiliate) (commission : Z) : Affiliate :=
  {| a_id := a_id a; a_name := a_name a; a_code := a_code a;
     a_password := a_password a; a_commissionRate := a_commissionRate a;
     a_totalEarnings := (a_totalEarnings a + inject_Z commission)%Q;
     a_bankDetails := a_bankDetails a; a_isActive := a_isActive a |}.

(** The [if (referralCode) { ... }] block of [handleCheckout]. It returns
    the affiliate collection after the block (the argument of
    [updateAffiliates], or the old collection when [updateAffiliates] is
    not called), the commission credited ([0] when none) and
    [affiliateName]. *)
Definition applyReferral (subTotal : Z) (referralCode : option string)
    (affiliates : list Affiliate) : list Affiliate * Z * string :=
  match referralCode with
  | Some rc =>
      if String.eqb rc EmptyString then (affiliates, 0, EmptyString) else
      match List.find (fun a => String.eqb (a_code a) rc) affiliates with
      | Some affiliate =>
          if a_isActive affiliate then
            let commission := js_commission subTotal (a_commissionRate affiliate) in
            let updatedAffiliates :=
              map (fun a => if String.eqb (a_id a) (a_id affiliate)
                            then addEarnings a commission else a) affiliates in
            (updatedAffiliates, commission, a_name affiliate)
          else (affiliates, 0, EmptyString)
      | None => (affiliates, 0, EmptyString)
      end
  | None => (affiliates, 0, EmptyString)
  end.

(** [handleCheckout], as far as the affiliate collection is concerned:
    the two guards ([selectedPayment] chosen, cart non-empty), then the
    referral block on the cart's [subTotal]. The remaining steps (message,
    redirect, [clearCart]) do not touch the affiliates. *)
Definition handleCheckout (selectedPayment : string) (cart : list CartItem)
    (referralCode : option string) (affiliates : list Affiliate) : list Affiliate * Z :=
  if String.eqb selectedPayment EmptyString then (affiliates, 0) else
  match cart with
  | [] => (affiliates, 0)
  | _ :: _ =>
      let '(affs, commission, _) := applyReferral (subTotal cart) referralCode affiliates in
      (affs, commission)
  end.

(* ------------------------------------------------------------------ *)
(** ** Cart ([addToCart], App.tsx 1311-1316) *)

Definition cartItemOf (product : Product) (quantity : Z) : CartItem :=
  mkCartItem product quantity.

(** [existing ? prev.map(p => p.id === product.id ? { ...p, quantity:
    p.quantity + 1 } : p) : [...prev, { ...product, quantity: 1 }]] *)
Definition addToCart (product : Product) (prev : list CartItem) : list CartItem :=
  match List.find (fun p => String.eqb (p_id (ci_product p)) (p_id product)) prev with
  | Some _ =>
      map (fun p => if String.eqb (p_id (ci_product p)) (p_id product)
                    then mkCartItem (ci_product p) (ci_quantity p + 1) else p) prev
  | None => prev ++ [cartItemOf product 1]
  end.

(** Cart invariant: item ids are unique and every quantity is positive. *)
Definition cart_inv (cart : list CartItem) : Prop :=
  NoDup (map (fun i => p_id (ci_product i)) cart) /\
  Forall (fun i => 0 < ci_quantity i) cart.

(* ------------------------------------------------------------------ *)
(** ** Remaining entities ([src/types.ts]) *)

Inductive PaymentType := BANK | EWALLET | QRIS | TRIPAY.

(** [PaymentMethod]; [isActive] is read and written by [App.tsx] on
    payment methods although the interface does not declare it. *)
Record PaymentMethod := mkPaymentMethod {
  pm_id : string;
  pm_type : PaymentType;
  pm_name : string;
  pm_accountNumber : option string;
  pm_accountName : option string;
  pm_description : option string;
  pm_logo : option string;
  pm_isActive : option bool;
}.

Record StoreSettings := mkStoreSettings {
  s_storeName : string;
  s_address : string;
  s_whatsapp : string;
  s_email : string;
  s_description : string;
  s_logoUrl : string;
  s_supabaseUrl : option string;
  s_supabaseKey : option string;
  s_tripayApiKey : option string;
  s_tripayPrivateKey : option string;
  s_tripayMerchantCode : option string;
}.

(* ------------------------------------------------------------------ *)
(** ** JSON values and the [JSON.stringify] / [JSON.parse] pair

    [localStorage] holds the text [JSON.stringify(val)]; we keep the JSON
    tree that text denotes, so [JSON.parse] of a stored entry is the tree
    itself. Object fields whose value is [undefined] are omitted by
    [JSON.stringify]. *)

#[warnings="-register-all"]
Inductive json :=
  | JNull
  | JBool (b : bool)
  | JNum (q : Q)
  | JStr (s : string)
  | JArr (l : list json)
  | JObj (fields : list (string * json)).

(** Property read [obj[k]] on a parsed object ([undefined] when absent;
    the objects written here never repeat a key). *)
Fixpoint jget (k : string) (fields : list (string * json)) : option json :=
  match fields with
  | [] => None
  | (k', v) :: r => if String.eqb k k' then Some v else jget k r
  end.

(** Property write [obj[k] = v]: overwrite in place, or append. *)
Fixpoint jset (k : string) (v : json) (fields : list (string * json))
    : list (string * json) :=
  match fields with
  | [] => [(k, v)]
  | (k', v') :: r => if String.eqb k k' then (k', v) :: r else (k', v') :: jset k v r
  end.

(** JavaScript truthiness of a property read ([undefined] when absent). *)
Definition jtruthy (o : option json) : bool :=
  match o with
  | None | Some JNull => false
  | Some (JBool b) => b
  | Some (JNum q) => negb (Qeq_bool q 0)
  | Some (JStr s) => negb (String.eqb s EmptyString)
  | Some (JArr _) | Some (JObj _) => true
  end.

(** How each TypeScript type is written by [JSON.stringify] and read back
    through [JSON.parse] and the type annotation of [get<T>]. [decode]
    returns [None] when the parsed tree does not have the shape of [T]. *)
Class Codec (A : Type) := {
  encode : A -> json;
  decode : json -> option A;
}.

#[global] Instance codec_string : Codec string := {
  encode s := JStr s;
  decode j := match j with JStr s => Some s | _ => None end;
}.

#[global] Instance codec_bool : Codec bool := {
  encode b := JBool b;
  decode j := match j with JBool b => Some b | _ => None end;
}.

(** Whole currency amounts. *)
#[global] Instance codec_Z : Codec Z := {
  encode z := JNum (inject_Z z);
  decode j := match j with
              | JNum q => if Pos.eqb (Qden q) 1 then Some (Qnum q) else None
              | _ => None
              end;
}.

#[global] Instance codec_Q : Codec Q := {
  encode q := JNum q;
  decode j := match j with JNum q => Some q | _ => None end;
}.

Fixpoint decode_list {A} (dec : json -> option A) (l : list json) : option (list A) :=
  match l with
  | [] => Some []
  | j :: r => x ← dec j; xs ← decode_list dec r; Some (x :: xs)
  end.

#[global] Instance codec_list {A} `{Codec A} : Codec (list A) := {
  encode l := JArr (map encode l);
  decode j := match j with JArr l => decode_list decode l | _ => None end;
}.

(** An optional field: omitted when [undefined]. *)
Definition opt_field {A} `{Codec A} (k : string) (o : option A)
    : list (string * json) :=
  match o with Some x => [(k, encode x)] | None => [] end.

Definition req {A} `{Codec A} (k : string) (fields : list (string * json)) : option A :=
  j ← jget k fields; decode j.

Definition opt {A} `{Codec A} (k : string) (fields : list (string * json))
    : option (option A) :=
  match jget k fields with
  | None => Some None
  | Some j => x ← decode j; Some (Some x)
  end.

#[global] Instance codec_Product : Codec Product := {
  encode p := JObj ([("id", encode (p_id p)); ("name", encode (p_name p));
                     ("image", encode (p_image p)); ("category", encode (p_category p));
                     ("description", encode (p_description p));
                     ("price", encode (p_price p))]
                    ++ opt_field "discountPrice" (p_discountPrice p)
                    ++ opt_field "fileUrl" (p_fileUrl p)
                    ++ opt_field "isPopular" (p_isPopular p));
  decode j := match j with
    | JObj fs =>
        id ← req "id" fs; name ← req "name" fs; image ← req "image" fs;
        category ← req "category" fs; description ← req "description" fs;
        price ← req "price" fs; discountPrice ← opt "discountPrice" fs;
        fileUrl ← opt "fileUrl" fs; isPopular ← opt "isPopular" fs;
        Some (mkProduct id name image category description price
                discountPrice fileUrl isPopular)
    | _ => None
    end;
}.

Definition VoucherType_str (t : VoucherType) : string :=
  match t with PERCENT => "PERCENT" | FIXED => "FIXED" end.

Definition VoucherType_of (s : string) : option VoucherType :=
  if String.eqb s "PERCENT" then Some PERCENT
  else if String.eqb s "FIXED" then Some FIXED else None.

#[global] Instance codec_VoucherType : Codec VoucherType := {
  encode t := JStr (VoucherType_str t);
  decode j := match j with JStr s => VoucherType_of s | _ => None end;
}.

#[global] Instance codec_Voucher : Codec Voucher := {
  encode v := JObj [("id", encode (v_id v)); ("code", encode (v_code v));
                    ("type", encode (v_type v)); ("value", encode (v_value v));
                    ("isActive", encode (v_isActive v))];
  decode j := match j with
    | JObj fs =>
        id ← req "id" fs; code ← req "code" fs; type ← req "type" fs;
        value ← req "value" fs; isActive ← req "isActive" fs;
        Some (mkVoucher id code type value isActive)
    | _ => None
    end;
}.

#[global] Instance codec_Affiliate : Codec Affiliate := {
  encode a := JObj [("id", encode (a_id a)); ("name", encode (a_name a));
                    ("code", encode (a_code a)); ("password", encode (a_password a));
                    ("commissionRate", encode (a_commissionRate a));
                    ("totalEarnings", encode (a_totalEarnings a));
                    ("bankDetails", encode (a_bankDetails a));
                    ("isActive", encode (a_isActive a))];
  decode j := match j with
    | JObj fs =>
        id ← req "id" fs; name ← req "name" fs; code ← req "code" fs;
        password ← req "password" fs; commissionRate ← req "commissionRate" fs;
        totalEarnings ← req "totalEarnings" fs; bankDetails ← req "bankDetails" fs;
        isActive ← req "isActive" fs;
        Some (mkAffiliate id name code password commissionRate totalEarnings
                bankDetails isActive)
    | _ => None
    end;
}.

Definition PaymentType_str (t : PaymentType) : string :=
  match t with BANK => "BANK" | EWALLET => "E-WALLET" | QRIS => "QRIS" | TRIPAY => "TRIPAY" end.

Definition PaymentType_of (s : string) : option PaymentType :=
  if String.eqb s "BANK" then Some BANK
  else if String.eqb s "E-WALLET" then Some EWALLET
  else if String.eqb s "QRIS" then Some QRIS
  else if String.eqb s "TRIPAY" then Some TRIPAY else None.

#[global] Instance codec_PaymentType : Codec PaymentType := {
  encode t := JStr (PaymentType_str t);
  decode j := match j with JStr s => PaymentType_of s | _ => None end;
}.

#[global] Instance codec_PaymentMethod : Codec PaymentMethod := {
  encode p := JObj ([("id", encode (pm_id p)); ("type", encode (pm_type p));
                     ("name", encode (pm_name p))]
                    ++ opt_field "accountNumber" (pm_accountNumber p)
                    ++ opt_field "accountName" (pm_accountName p)
                    ++ opt_field "description" (pm_description p)
                    ++ opt_field "logo" (pm_logo p)
                    ++ opt_field "isActive" (pm_isActive p));
  decode j := match j with
    | JObj fs =>
        id ← req "id" fs; type ← req "type" fs; name ← req "name" fs;
        accountNumber ← opt "accountNumber" fs; accountName ← opt "accountName" fs;
        description ← opt "description" fs; logo ← opt "logo" fs;
        isActive ← opt "isActive" fs;
        Some (mkPaymentMethod id type name accountNumber accountName description
                logo isActive)
    | _ => None
    end;
}.

#[global] Instance codec_StoreSettings : Codec StoreSettings := {
  encode s := JObj ([("storeName", encode (s_storeName s)); ("address", encode (s_address s));
                     ("whatsapp", encode (s_whatsapp s)); ("email", encode (s_email s));
                     ("description", encode (s_description s));
                     ("logoUrl", encode (s_logoUrl s))]
                    ++ opt_field "supabaseUrl" (s_supabaseUrl s)
                    ++ opt_field "supabaseKey" (s_supabaseKey s)
                    ++ opt_field "tripayApiKey" (s_tripayApiKey s)
                    ++ opt_field "tripayPrivateKey" (s_tripayPrivateKey s)
                    ++ opt_field "tripayMerchantCode" (s_tripayMerchantCode s));
  decode j := match j with
    | JObj fs =>
        storeName ← req "storeName" fs; address ← req "address" fs;
        whatsapp ← req "whatsapp" fs; email ← req "email" fs;
        description ← req "description" fs; logoUrl ← req "logoUrl" fs;
        supabaseUrl ← opt "supabaseUrl" fs; supabaseKey ← opt "supabaseKey" fs;
        tripayApiKey ← opt "tripayApiKey" fs;
        tripayPrivateKey ← opt "tripayPrivateKey" fs;
        tripayMerchantCode ← opt "tripayMerchantCode" fs;
        Some (mkStoreSettings storeName address whatsapp email description logoUrl
                supabaseUrl supabaseKey tripayApiKey tripayPrivateKey tripayMerchantCode)
    | _ => None
    end;
}.

(* ------------------------------------------------------------------ *)
(** ** Local persistence ([src/services/dataService.ts]) *)

Definition STORAGE_KEYS_PRODUCTS := "ds_products".
Definition STORAGE_KEYS_SETTINGS := "ds_settings".
Definition STORAGE_KEYS_PAYMENTS := "ds_payments".
Definition STORAGE_KEYS_ORDERS := "ds_orders".
Definition STORAGE_KEYS_VOUCHERS := "ds_vouchers".
Definition STORAGE_KEYS_AFFILIATES := "ds_affiliates".

(** [localStorage]: one entry per key. *)
Abbreviation LocalStorage := (gmap string json).

(** The build-time environment read through [import.meta.env]. *)
Record Env := mkEnv {
  VITE_SUPABASE_URL : option string;
  VITE_SUPABASE_ANON_KEY : option string;
}.

Section DataService.
Variable env : Env.

Definition or_empty (o : option string) : string :=
  match o with Some s => s | None => EmptyString end.

Definition initialSettings : StoreSettings :=
  mkStoreSettings "DigiStore Pro" "Jl. Digital No. 1, Jakarta" "6281234567890"
    "admin@digistore.com" "Toko produk digital terpercaya dan terlengkap."
    "https://picsum.photos/id/42/200/200"
    (Some (or_empty (VITE_SUPABASE_URL env)))
    (Some (or_empty (VITE_SUPABASE_ANON_KEY env))) None None None.

(** The env override of [get] on a parsed settings object. *)
Definition inject_env (fs : list (string * json)) : list (string * json) :=
  if negb (jtruthy (jget "supabaseUrl" fs)) || negb (jtruthy (jget "supabaseKey" fs))
  then
    let fs := if truthy_str (VITE_SUPABASE_URL env)
              then jset "supabaseUrl" (JStr (or_empty (VITE_SUPABASE_URL env))) fs
              else fs in
    if truthy_str (VITE_SUPABASE_ANON_KEY env)
    then jset "supabaseKey" (JStr (or_empty (VITE_SUPABASE_ANON_KEY env))) fs
    else fs
  else fs.

(** [get(key, defaultVal)], returning the parsed JSON tree. *)
Definition get_json (ls : LocalStorage) (key : string) (defaultVal : json) : json :=
  match ls !! key with
  | None => defaultVal
  | Some parsed =>
      if String.eqb key STORAGE_KEYS_SETTINGS then
        match parsed with
        | JObj fs => JObj (inject_env fs)
        | _ => parsed
        end
      else parsed
  end.

(** [get<T>(key, defaultVal)]: the parsed tree read at type [T]. *)
Definition get {T} `{Codec T} (ls : LocalStorage) (key : string) (defaultVal : T)
    : option T :=
  decode (get_json ls key (encode defaultVal)).

(** [set(key, val)] = [localStorage.setItem(key, JSON.stringify(val))]. *)
Definition set {T} `{Codec T} (ls : LocalStorage) (key : string) (val : T)
    : LocalStorage :=
  <[key := encode val]> ls.
End DataService.

(** The five collections managed by the sync engine, with their keys. *)
Inductive Collection := CProducts | CVouchers | CAffiliates | CSettings | CPayments.

Definition collection_key (c : Collection) : string :=
  match c with
  | CProducts => STORAGE_KEYS_PRODUCTS
  | CVouchers => STORAGE_KEYS_VOUCHERS
  | CAffiliates => STORAGE_KEYS_AFFILIATES
  | CSettings => STORAGE_KEYS_SETTINGS
  | CPayments => STORAGE_KEYS_PAYMENTS
  end.

Definition collection_type (c : Collection) : Type :=
  match c with
  | CProducts => list Product
  | CVouchers => list Voucher
  | CAffiliates => list Affiliate
  | CSettings => StoreSettings
  | CPayments => list PaymentMethod
  end.

#[global] Instance collection_codec (c : Collection) : Codec (collection_type c) :=
  match c with
  | CProducts => codec_list
  | CVouchers => codec_list
  | CAffiliates => codec_list
  | CSettings => codec_StoreSettings
  | CPayments => codec_list
  end.

(** [DataService.saveX(v)] then [DataService.getX()], for collection [c]. *)
Definition save_collection (c : Collection) (ls : LocalStorage) (v : collection_type c)
    : LocalStorage :=
  set ls (collection_key c) v.

Definition get_collection (env : Env) (c : Collection) (ls : LocalStorage)
    (defaultVal : collection_type c) : option (collection_type c) :=
  get env ls (collection_key c) defaultVal.

(* ------------------------------------------------------------------ *)
(** ** Identifiers ([generateUUID], [isValidUUID], App.tsx 119-131) *)

(** [[0-9a-f]] under the [i] flag. *)
Definition is_hex (c : ascii) : bool :=
  let n := nat_of_ascii c in
  ((48 <=? n) && (n <=? 57) || (97 <=? n) && (n <=? 102) || (65 <=? n) && (n <=? 70))%nat.

(** [[0-9a-f]{n}]: consume [n] hex digits. *)
Fixpoint hex_run (n : nat) (s : string) : option string :=
  match n with
  | O => Some s
  | S k => match s with
           | String c r => if is_hex c then hex_run k r else None
           | EmptyString => None
           end
  end.

Definition hyphen (s : string) : option string :=
  match s with
  | String c r => if Ascii.eqb c "-" then Some r else None
  | EmptyString => None
  end.

(** [/^[0-9a-f]{8}-[0-9a-f]{4}-[0-9a-f]{4}-[0-9a-f]{4}-[0-9a-f]{12}$/i.test(uuid)] *)
Definition isValidUUID (uuid : string) : bool :=
  match s1 ← hex_run 8 uuid; s2 ← hyphen s1; s3 ← hex_run 4 s2; s4 ← hyphen s3;
        s5 ← hex_run 4 s4; s6 ← hyphen s5; s7 ← hex_run 4 s6; s8 ← hyphen s7;
        hex_run 12 s8 with
  | Some EmptyString => true
  | _ => false
  end.

(** [v.toString(16)] *)
Definition hex_char (d : Z) : ascii :=
  ascii_of_nat (if d <? 10 then (48 + Z.to_nat d)%nat else (87 + Z.to_nat d)%nat).

Fixpoint to_hex_aux (fuel : nat) (v : Z) (acc : string) : string :=
  match fuel with
  | O => acc
  | S f => let acc' := String (hex_char (v mod 16)) acc in
           if v <? 16 then acc' else to_hex_aux f (v / 16) acc'
  end.

Definition toString16 (v : Z) : string :=
  if v <? 0 then String "-" (to_hex_aux 64 (- v) EmptyString)
  else to_hex_aux 64 v EmptyString.

(** Random draws are threaded as a counter: the [n]-th call of
    [Math.random()] returns [Math_random n], the [n]-th call of
    [crypto.randomUUID()] returns [randomUUID n]. *)
Definition Rand (A : Type) := nat -> A * nat.

Definition rret {A} (x : A) : Rand A := fun n => (x, n).
Definition rbind {A B} (m : Rand A) (k : A -> Rand B) : Rand B :=
  fun n => let '(x, n') := m n in k x n'.

Fixpoint rmapM {A B} (f : A -> Rand B) (l : list A) : Rand (list B) :=
  match l with
  | [] => rret []
  | x :: r => rbind (f x) (fun y => rbind (rmapM f r) (fun ys => rret (y :: ys)))
  end.

Definition uuid_template : string := "xxxxxxxx-xxxx-4xxx-yxxx-xxxxxxxxxxxx".

Section Random.
(** [crypto.randomUUID], when the platform provides it. *)
Variable randomUUID : option (nat -> string).
Variable Math_random : nat -> Q.

(** [template.replace(/[xy]/g, c => { var r = Math.random() * 16 | 0,
    v = c == 'x' ? r : (r & 0x3 | 0x8); return v.toString(16); })];
    [| 0] truncates the non-negative product, i.e. takes its floor. *)
Fixpoint fill_template (t : string) : Rand string :=
  match t with
  | EmptyString => rret EmptyString
  | String c rest =>
      if Ascii.eqb c "x" || Ascii.eqb c "y" then
        fun n =>
          let r := Qfloor (Math_random n * inject_Z 16) in
          let v := if Ascii.eqb c "x" then r else Z.lor (Z.land r 3) 8 in
          let '(s, n') := fill_template rest (S n) in
          (String.append (toString16 v) s, n')
      else rbind (fill_template rest) (fun s => rret (String c s))
  end.

Definition generateUUID : Rand string :=
  match randomUUID with
  | Some g => fun n => (g n, S n)
  | None => fill_template uuid_template
  end.

(** The records the push normalises: anything with an [id]. *)
Class HasId (A : Type) := {
  get_id : A -> string;
  set_id : A -> string -> A;
}.

(** [ensureUuid = item => !isValidUUID(item.id) ? { ...item, id:
    generateUUID() } : item] *)
Definition ensureUuid {A} `{HasId A} (item : A) : Rand A :=
  if negb (isValidUUID (get_id item))
  then rbind generateUUID (fun id => rret (set_id item id))
  else rret item.
End Random.

#[global] Instance HasId_Product : HasId Product := {
  get_id := p_id;
  set_id p i := mkProduct i (p_name p) (p_image p) (p_category p) (p_description p)
                  (p_price p) (p_discountPrice p) (p_fileUrl p) (p_isPopular p);
}.
#[global] Instance HasId_Voucher : HasId Voucher := {
  get_id := v_id;
  set_id v i := mkVoucher i (v_code v) (v_type v) (v_value v) (v_isActive v);
}.
#[global] Instance HasId_Affiliate : HasId Affiliate := {
  get_id := a_id;
  set_id a i := mkAffiliate i (a_name a) (a_code a) (a_password a) (a_commissionRate a)
                  (a_totalEarnings a) (a_bankDetails a) (a_isActive a);
}.
#[global] Instance HasId_PaymentMethod : HasId PaymentMethod := {
  get_id := pm_id;
  set_id p i := mkPaymentMethod i (pm_type p) (pm_name p) (pm_accountNumber p)
                  (pm_accountName p) (pm_description p) (pm_logo p) (pm_isActive p);
}.

(* ------------------------------------------------------------------ *)
(** ** In-memory application state ([App], App.tsx 1192-1198) *)

Record AppState := mkAppState {
  st_settings : StoreSettings;
  st_products : list Product;
  st_vouchers : list Voucher;
  st_affiliates : list Affiliate;
  st_paymentMethods : list PaymentMethod;
}.

Definition updateProducts (st : AppState) (v : list Product) : AppState :=
  mkAppState (st_settings st) v (st_vouchers st) (st_affiliates st) (st_paymentMethods st).
Definition updateVouchers (st : AppState) (v : list Voucher) : AppState :=
  mkAppState (st_settings st) (st_products st) v (st_affiliates st) (st_paymentMethods st).
Definition updateAffiliates (st : AppState) (v : list Affiliate) : AppState :=
  mkAppState (st_settings st) (st_products st) (st_vouchers st) v (st_paymentMethods st).
Definition updateSettings (st : AppState) (v : StoreSettings) : AppState :=
  mkAppState v (st_products st) (st_vouchers st) (st_affiliates st) (st_paymentMethods st).
Definition updatePayments (st : AppState) (v : list PaymentMethod) : AppState :=
  mkAppState (st_settings st) (st_products st) (st_vouchers st) (st_affiliates st) v.

(* ------------------------------------------------------------------ *)
(** ** Manual push ([handleSync] of [AdminDatabase], App.tsx 643-731) *)

(** Remote rows, field by field as in the [.map(...)] of each step;
    [undefined] fields are left out. *)
Definition dbProduct (p : Product) : json :=
  JObj ([("id", encode (p_id p)); ("name", encode (p_name p));
         ("category", encode (p_category p)); ("description", encode (p_description p));
         ("price", encode (p_price p))]
        ++ opt_field "discount_price" (p_discountPrice p)
        ++ [("image", encode (p_image p))]
        ++ opt_field "file_url" (p_fileUrl p)
        ++ opt_field "is_popular" (p_isPopular p)).

Definition dbVoucher (v : Voucher) : json :=
  JObj [("id", encode (v_id v)); ("code", encode (v_code v)); ("type", encode (v_type v));
        ("value", encode (v_value v)); ("is_active", encode (v_isActive v))].

Definition dbAffiliate (a : Affiliate) : json :=
  JObj [("id", encode (a_id a)); ("name", encode (a_name a)); ("code", encode (a_code a));
        ("password", encode (a_password a));
        ("commission_rate", encode (a_commissionRate a));
        ("total_earnings", encode (a_totalEarnings a));
        ("bank_details", encode (a_bankDetails a)); ("is_active", encode (a_isActive a))].

Definition dbSettings (s : StoreSettings) : json :=
  JObj ([("id", JStr "settings_01"); ("store_name", encode (s_storeName s));
         ("address", encode (s_address s)); ("whatsapp", encode (s_whatsapp s));
         ("email", encode (s_email s)); ("description", encode (s_description s));
         ("logo_url", encode (s_logoUrl s))]
        ++ opt_field "tripay_api_key" (s_tripayApiKey s)
        ++ opt_field "tripay_private_key" (s_tripayPrivateKey s)
        ++ opt_field "tripay_merchant_code" (s_tripayMerchantCode s)).

Definition dbPayment (p : PaymentMethod) : json :=
  JObj ([("id", encode (pm_id p)); ("type", encode (pm_type p)); ("name", encode (pm_name p))]
        ++ opt_field "account_number" (pm_accountNumber p)
        ++ opt_field "account_name" (pm_accountName p)
        ++ opt_field "description" (pm_description p)
        ++ opt_field "logo" (pm_logo p)
        ++ opt_field "is_active" (pm_isActive p)).

(** One [supabase.from(table).upsert(rows)] call and the error it
    reported ([None] on success). *)
Record UpsertCall := mkUpsertCall {
  uc_table : string;
  uc_rows : list json;
  uc_error : option string;
}.

(** State threaded through the push: the in-memory collections, the calls
    issued to the remote so far, and the random-draw counter. *)
Record SyncSt := mkSyncSt {
  ss_app : AppState;
  ss_calls : list UpsertCall;
  ss_rng : nat;
}.

(** The [try] block: a state monad with an exception ([throw error]). *)
Definition SyncM (A : Type) := SyncSt -> (string + A) * SyncSt.

Definition sret {A} (x : A) : SyncM A := fun s => (inr x, s).
Definition sbind {A B} (m : SyncM A) (k : A -> SyncM B) : SyncM B :=
  fun s => match m s with
           | (inl e, s') => (inl e, s')
           | (inr x, s') => k x s'
           end.

Notation "x <-- m ;; k" := (sbind m (fun x => k))
  (at level 100, m at next level, right associativity).
Notation "m ;;; k" := (sbind m (fun _ => k)) (at level 100, right associativity).

Definition modify_app (f : AppState -> AppState) : SyncM unit :=
  fun s => (inr tt, mkSyncSt (f (ss_app s)) (ss_calls s) (ss_rng s)).

Definition liftRand {A} (m : Rand A) : SyncM A :=
  fun s => let '(x, n) := m (ss_rng s) in (inr x, mkSyncSt (ss_app s) (ss_calls s) n).

Inductive SyncOutcome :=
  | NotConnected
  | Cancelled
  | Uploaded
  | UploadFailed (message : string).

Section Push.
Variable randomUUID : option (nat -> string).
Variable Math_random : nat -> Q.
(** The remote's answer to an upsert of [rows] into [table]: [Some e]
    when it reports the error [e]. *)
Variable upsert : string -> list json -> option string.

(** [const { error } = await supabase.from(table).upsert(rows);
     if (error) throw error;] *)
Definition upsert_or_throw (table : string) (rows : list json) : SyncM unit :=
  fun s =>
    let r := upsert table rows in
    let s' := mkSyncSt (ss_app s) (ss_calls s ++ [mkUpsertCall table rows r]) (ss_rng s) in
    match r with
    | Some e => (inl e, s')
    | None => (inr tt, s')
    end.

Definition ensureUuids {A} `{HasId A} (l : list A) : SyncM (list A) :=
  liftRand (rmapM (ensureUuid randomUUID Math_random) l).

(** The body of the [try], over the collections captured by the closure. *)
Definition sync_body (st : AppState) : SyncM unit :=
  (match st_products st with
   | [] => sret tt
   | _ => fixedProducts <-- ensureUuids (st_products st) ;;
          modify_app (fun a => updateProducts a fixedProducts) ;;;
          upsert_or_throw "products" (map dbProduct fixedProducts)
   end) ;;;
  (match st_vouchers st with
   | [] => sret tt
   | _ => fixedVouchers <-- ensureUuids (st_vouchers st) ;;
          modify_app (fun a => updateVouchers a fixedVouchers) ;;;
          upsert_or_throw "vouchers" (map dbVoucher fixedVouchers)
   end) ;;;
  (match st_affiliates st with
   | [] => sret tt
   | _ => fixedAffs <-- ensureUuids (st_affiliates st) ;;
          modify_app (fun a => updateAffiliates a fixedAffs) ;;;
          upsert_or_throw "affiliates" (map dbAffiliate fixedAffs)
   end) ;;;
  upsert_or_throw "store_settings" [dbSettings (st_settings st)] ;;;
  (match st_paymentMethods st with
   | [] => sret tt
   | _ => fixedPayments <-- ensureUuids (st_paymentMethods st) ;;
          modify_app (fun a => updatePayments a fixedPayments) ;;;
          upsert_or_throw "payment_methods" (map dbPayment fixedPayments)
   end).

(** [handleSync]: [connected] is [supabase] being non-null, [confirmed]
    the answer to the [confirm(...)] dialog. A caught error is shown as
    ["Gagal upload: " + message]. *)
Definition handleSync (connected confirmed : bool) (s : SyncSt) : SyncOutcome * SyncSt :=
  if negb connected then (NotConnected, s) else
  if negb confirmed then (Cancelled, s) else
  match sync_body (ss_app s) s with
  | (inl e, s') => (UploadFailed e, s')
  | (inr _, s') => (Uploaded, s')
  end.
End Push.

(** The tables the push writes, in order, for the collections it starts from. *)
Definition planned_tables (st : AppState) : list string :=
  (if st_products st then [] else ["products"]) ++
  (if st_vouchers st then [] else ["vouchers"]) ++
  (if st_affiliates st then [] else ["affiliates"]) ++
  ["store_settings"] ++
  (if st_paymentMethods st then [] else ["payment_methods"]).

(** A recorded call carries the remote's own answer to it. *)
Definition call_ok (upsert : string -> list json -> option string) (c : UpsertCall) : Prop :=
  uc_error c = upsert (uc_table c) (uc_rows c).

Definition call_succeeded (c : UpsertCall) : Prop := uc_error c = None.

(** [m] issues upserts to [tables] in order, stopping at the first one that
    reports an error, which it then throws. *)
Definition runs_tables (upsert : string -> list json -> option string)
    (tables : list string) (m : SyncM unit) : Prop :=
  forall s, match m s with
  | (r, s') =>
      exists new, ss_calls s' = ss_calls s ++ new /\ Forall (call_ok upsert) new /\
      ((r = inr tt /\ map uc_table new = tables /\ Forall call_succeeded new) \/
       (exists pre c e, new = pre ++ [c] /\ Forall call_succeeded pre /\
          uc_error c = Some e /\ r = inl e /\
          map uc_table new = firstn (length new) tables))
  end.

(* ------------------------------------------------------------------ *)
(** ** Initial pull ([fetchData], App.tsx 1221-1301) *)

(** Remote rows as the client returns them ([Number(...)] already applied
    to numeric columns; [null] columns are [None]). *)
Record ProductRow := mkProductRow {
  pr_id : string; pr_name : string; pr_category : string; pr_description : string;
  pr_price : Z; pr_discount_price : option Z; pr_image : string;
  pr_file_url : option string; pr_is_popular : option bool;
}.

Record VoucherRow := mkVoucherRow {
  vr_id : string; vr_code : string; vr_type : VoucherType; vr_value : Q; vr_is_active : bool;
}.

Record AffiliateRow := mkAffiliateRow {
  ar_id : string; ar_name : string; ar_code : string; ar_password : string;
  ar_commission_rate : Q; ar_total_earnings : Q; ar_bank_details : string;
  ar_is_active : bool;
}.

Record SettingsRow := mkSettingsRow {
  sr_store_name : string; sr_address : string; sr_whatsapp : string; sr_email : string;
  sr_description : string; sr_logo_url : string; sr_tripay_api_key : option string;
  sr_tripay_private_key : option string; sr_tripay_merchant_code : option string;
}.

Record PaymentRow := mkPaymentRow {
  pyr_id : string; pyr_type : PaymentType; pyr_name : string;
  pyr_account_number : option string; pyr_account_name : option string;
  pyr_description : option string; pyr_logo : option string; pyr_is_active : option bool;
}.

(** What the remote answers to each [select('*')]: an error message or the
    rows. The settings query ([.single()]) has its error ignored: only the
    row, when there is exactly one, matters. *)
Record Remote := mkRemote {
  rm_products : string + list ProductRow;
  rm_vouchers : string + list VoucherRow;
  rm_affiliates : string + list AffiliateRow;
  rm_settings : option SettingsRow;
  rm_payments : string + list PaymentRow;
}.

Definition mapProduct (p : ProductRow) : Product :=
  mkProduct (pr_id p) (pr_name p) (pr_image p) (pr_category p) (pr_description p)
    (pr_price p)
    (if truthy_num (pr_discount_price p) then pr_discount_price p else None)
    (pr_file_url p) (pr_is_popular p).

Definition mapVoucher (v : VoucherRow) : Voucher :=
  mkVoucher (vr_id v) (vr_code v) (vr_type v) (vr_value v) (vr_is_active v).

Definition mapAffiliate (a : AffiliateRow) : Affiliate :=
  mkAffiliate (ar_id a) (ar_name a) (ar_code a) (ar_password a) (ar_commission_rate a)
    (ar_total_earnings a) (ar_bank_details a) (ar_is_active a).

(** [{ ...settings, storeName: settingsData.store_name, ... }]: the fields
    not listed ([supabaseUrl], [supabaseKey]) keep their local value. *)
Definition mergeSettings (settings : StoreSettings) (r : SettingsRow) : StoreSettings :=
  mkStoreSettings (sr_store_name r) (sr_address r) (sr_whatsapp r) (sr_email r)
    (sr_description r) (sr_logo_url r) (s_supabaseUrl settings) (s_supabaseKey settings)
    (sr_tripay_api_key r) (sr_tripay_private_key r) (sr_tripay_merchant_code r).

Definition mapPayment (p : PaymentRow) : PaymentMethod :=
  mkPaymentMethod (pyr_id p) (pyr_type p) (pyr_name p) (pyr_account_number p)
    (pyr_account_name p) (pyr_description p) (pyr_logo p) (pyr_is_active p).

(** State after the pull: collections, [localStorage], [fetchError] and
    [isCloudConnected]. *)
Record PullState := mkPullState {
  ps_app : AppState;
  ps_ls : LocalStorage;
  ps_fetchError : option string;
  ps_connected : bool;
}.

(** [setFetchError(err.message || "Unknown error")]: the caught error's
    message, or ["Unknown error"] when it is empty. *)
Definition fetchErrorOf (message : string) : string :=
  if String.eqb message EmptyString then "Unknown error" else message.

(** [fetchData]: each step sets the collection ([setX]) and saves it
    ([DataService.saveX]); a reported error (its message) is thrown,
    caught, and stored in [fetchError], the steps already done staying
    done. *)
Definition fetchData (r : Remote) (ps : PullState) : PullState :=
  let settings := st_settings (ps_app ps) in
  let fail ps e := mkPullState (ps_app ps) (ps_ls ps) (Some (fetchErrorOf e)) (ps_connected ps) in
  let ps := mkPullState (ps_app ps) (ps_ls ps) None (ps_connected ps) in
  match rm_products r with
  | inl e => fail ps e
  | inr prodData =>
  let mappedProducts := map mapProduct prodData in
  let ps := mkPullState (updateProducts (ps_app ps) mappedProducts)
              (set (ps_ls ps) STORAGE_KEYS_PRODUCTS mappedProducts)
              (ps_fetchError ps) (ps_connected ps) in
  match rm_vouchers r with
  | inl e => fail ps e
  | inr vouchData =>
  let mappedVouchers := map mapVoucher vouchData in
  let ps := mkPullState (updateVouchers (ps_app ps) mappedVouchers)
              (set (ps_ls ps) STORAGE_KEYS_VOUCHERS mappedVouchers)
              (ps_fetchError ps) (ps_connected ps) in
  match rm_affiliates r with
  | inl e => fail ps e
  | inr affData =>
  let mappedAff := map mapAffiliate affData in
  let ps := mkPullState (updateAffiliates (ps_app ps) mappedAff)
              (set (ps_ls ps) STORAGE_KEYS_AFFILIATES mappedAff)
              (ps_fetchError ps) (ps_connected ps) in
  let ps := match rm_settings r with
            | Some settingsData =>
                let newSettings := mergeSettings settings settingsData in
                mkPullState (updateSettings (ps_app ps) newSettings)
                  (set (ps_ls ps) STORAGE_KEYS_SETTINGS newSettings)
                  (ps_fetchError ps) (ps_connected ps)
            | None => ps
            end in
  match rm_payments r with
  | inl e => fail ps e
  | inr payData =>
  let ps := match payData with
            | [] => ps
            | _ :: _ =>
                let mappedPayments := map mapPayment payData in
                mkPullState (updatePayments (ps_app ps) mappedPayments)
                  (set (ps_ls ps) STORAGE_KEYS_PAYMENTS mappedPayments)
                  (ps_fetchError ps) (ps_connected ps)
            end in
  mkPullState (ps_app ps) (ps_ls ps) (ps_fetchError ps) true
  end end end end.

(* ------------------------------------------------------------------ *)
(** ** Storefront and admin handlers ([App.tsx]) *)

(** [{ role, name, id }] as passed to [login]. *)
Inductive Role := ADMIN | CUSTOMER | AFFILIATE.

Record User := mkUser {
  u_role : Role;
  u_name : string;
  u_id : option string;
}.

(** What a submit of the login form does: [login(...)] then
    [navigate(route)], or an [alert(message)] with no login. *)
Inductive LoginOutcome :=
  | LoggedIn (user : User) (route : string)
  | LoginAlert (message : string).

(** [Partial<Product>]: the keys the form object holds. *)
Record PartialProduct := mkPartialProduct {
  cp_id : option string;
  cp_name : option string;
  cp_image : option string;
  cp_category : option string;
  cp_description : option string;
  cp_price : option Z;
  cp_discountPrice : option Z;
  cp_fileUrl : option string;
  cp_isPopular : option bool;
}.

(** [Partial<Voucher>] *)
Record PartialVoucher := mkPartialVoucher {
  cv_id : option string;
  cv_code : option string;
  cv_type : option VoucherType;
  cv_value : option Q;
  cv_isActive : option bool;
}.

(** [Partial<Affiliate>] *)
Record PartialAffiliate := mkPartialAffiliate {
  ca_id : option string;
  ca_name : option string;
  ca_code : option string;
  ca_password : option string;
  ca_commissionRate : option Q;
  ca_totalEarnings : option Q;
  ca_bankDetails : option string;
  ca_isActive : option bool;
}.

(** [x || d] on an optional string. *)
Definition or_str (o : option string) (d : string) : string :=
  match o with Some s => if String.eqb s EmptyString then d else s | None => d end.

(** Truthiness of an optional [Q]: [undefined] and [0] are falsy. *)
Definition truthy_q (o : option Q) : bool :=
  match o with Some q => negb (Qeq_bool q 0) | None => false end.

(** A key of a spread [{ ...x, ...partial }]: the partial's value when the
    key is present there. *)
Definition override {A} (o : option A) (d : A) : A :=
  match o with Some x => x | None => d end.

Definition override_opt {A} (o : option A) (d : option A) : option A :=
  match o with Some x => Some x | None => d end.

(** [{ ...p, ...currentProduct } as Product] *)
Definition mergeProduct (p : Product) (c : PartialProduct) : Product :=
  mkProduct (override (cp_id c) (p_id p)) (override (cp_name c) (p_name p))
    (override (cp_image c) (p_image p)) (override (cp_category c) (p_category p))
    (override (cp_description c) (p_description p)) (override (cp_price c) (p_price p))
    (override_opt (cp_discountPrice c) (p_discountPrice p))
    (override_opt (cp_fileUrl c) (p_fileUrl p))
    (override_opt (cp_isPopular c) (p_isPopular p)).

(** [{ ...v, ...currentVoucher } as Voucher] *)
Definition mergeVoucher (v : Voucher) (c : PartialVoucher) : Voucher :=
  mkVoucher (override (cv_id c) (v_id v)) (override (cv_code c) (v_code v))
    (override (cv_type c) (v_type v)) (override (cv_value c) (v_value v))
    (override (cv_isActive c) (v_isActive v)).

(** [{ ...a, ...currentAff } as Affiliate] *)
Definition mergeAffiliate (a : Affiliate) (c : PartialAffiliate) : Affiliate :=
  mkAffiliate (override (ca_id c) (a_id a)) (override (ca_name c) (a_name a))
    (override (ca_code c) (a_code a)) (override (ca_password c) (a_password a))
    (override (ca_commissionRate c) (a_commissionRate a))
    (override (ca_totalEarnings c) (a_totalEarnings a))
    (override (ca_bankDetails c) (a_bankDetails a))
    (override (ca_isActive c) (a_isActive a)).

Section Handlers.
(** [String.prototype.toUpperCase] is left abstract: what is proved below
    holds whatever it returns. *)
Variable toUpperCase : string -> string.
Variable randomUUID : option (nat -> string).
Variable Math_random : nat -> Q.

(** [handleApplyVoucher] (App.tsx 968-973): the [appliedVoucher] after
    the click. [if (!voucherCode) return;] keeps it; otherwise it becomes
    the voucher found ([setAppliedVoucher(found)]) or [null]. *)
Definition handleApplyVoucher (voucherCode : string) (vouchers : list Voucher)
    (appliedVoucher : option Voucher) : option Voucher :=
  if String.eqb voucherCode EmptyString then appliedVoucher else
  List.find (fun v => String.eqb (v_code v) (toUpperCase voucherCode) && v_isActive v)
    vouchers.

(** [Login.handleLogin] (App.tsx 1140-1163). *)
Definition handleLogin (username password : string) (affiliates : list Affiliate)
    : LoginOutcome :=
  if String.eqb username "admin" && String.eqb password "admin" then
    LoggedIn (mkUser ADMIN "Admin User" None) "/admin"
  else
    match List.find (fun a => String.eqb (a_code a) (toUpperCase username)
                              && String.eqb (a_password a) password) affiliates with
    | Some affiliate =>
        if negb (a_isActive affiliate) then LoginAlert "Akun affiliate non-aktif."
        else LoggedIn (mkUser AFFILIATE (a_name affiliate) (Some (a_id affiliate)))
               "/account"
    | None =>
        if negb (String.eqb username EmptyString) && negb (String.eqb password EmptyString)
        then LoggedIn (mkUser CUSTOMER username None) "/"
        else LoginAlert "Login Gagal. Cek username/password."
    end.

(** [AdminProducts.handleSave] (App.tsx 298-321). [None]: the alert fires
    and [updateProducts] is not called; otherwise the collection passed
    to [updateProducts]. [now] is the text of [Date.now()]. *)
Definition productSave (now : string) (currentProduct : PartialProduct)
    (products : list Product) : Rand (option (list Product)) :=
  if negb (truthy_str (cp_name currentProduct)) || negb (truthy_num (cp_price currentProduct))
  then rret None else
  if truthy_str (cp_id currentProduct) then
    rret (Some (map (fun p => if String.eqb (p_id p) (or_empty (cp_id currentProduct))
                              then mergeProduct p currentProduct else p) products))
  else
    rbind (generateUUID randomUUID Math_random) (fun newId =>
      rret (Some (products ++
        [mkProduct newId (or_empty (cp_name currentProduct))
           (or_str (cp_image currentProduct)
              (String.append "https://picsum.photos/400/400?random=" now))
           (or_str (cp_category currentProduct) "General")
           (or_str (cp_description currentProduct) EmptyString)
           (override (cp_price currentProduct) 0)
           (if truthy_num (cp_discountPrice currentProduct)
            then cp_discountPrice currentProduct else None)
           (Some (or_str (cp_fileUrl currentProduct) EmptyString))
           None]))).

(** [AdminVouchers.handleSave] (App.tsx 427-439). *)
Definition voucherSave (currentVoucher : PartialVoucher) (vouchers : list Voucher)
    : Rand (option (list Voucher)) :=
  if negb (truthy_str (cv_code currentVoucher)) || negb (truthy_q (cv_value currentVoucher))
  then rret None else
  if truthy_str (cv_id currentVoucher) then
    rret (Some (map (fun v => if String.eqb (v_id v) (or_empty (cv_id currentVoucher))
                              then mergeVoucher v currentVoucher else v) vouchers))
  else
    rbind (generateUUID randomUUID Math_random) (fun newId =>
      rret (Some (vouchers ++
        [mkVoucher newId (toUpperCase (or_empty (cv_code currentVoucher)))
           (override (cv_type currentVoucher) FIXED)
           (override (cv_value currentVoucher) 0%Q)
           (override (cv_isActive currentVoucher) true)]))).

(** [AdminAffiliates.handleSave] (App.tsx 494-515). *)
Definition affiliateSave (currentAff : PartialAffiliate) (affiliates : list Affiliate)
    : Rand (option (list Affiliate)) :=
  if negb (truthy_str (ca_name currentAff)) || negb (truthy_str (ca_code currentAff))
     || negb (truthy_str (ca_password currentAff))
  then rret None else
  if truthy_str (ca_id currentAff) then
    rret (Some (map (fun a => if String.eqb (a_id a) (or_empty (ca_id currentAff))
                              then mergeAffiliate a currentAff else a) affiliates))
  else
    rbind (generateUUID randomUUID Math_random) (fun newId =>
      rret (Some (affiliates ++
        [mkAffiliate newId (or_empty (ca_name currentAff))
           (toUpperCase (or_empty (ca_code currentAff)))
           (or_empty (ca_password currentAff))
           (if truthy_q (ca_commissionRate currentAff)
            then override (ca_commissionRate currentAff) 0%Q else 10%Q)
           0%Q
           (or_str (ca_bankDetails currentAff) EmptyString)
           true]))).
End Handlers.

(** [removeFromCart: (id) => setCart(p => p.filter(x => x.id !== id))] *)
Definition removeFromCart (id : string) (cart : list CartItem) : list CartItem :=
  filter (fun x => negb (String.eqb (p_id (ci_product x)) id)) cart.

(** [Array.from(new Set(xs))]: the distinct values in first-insertion
    order. *)
Definition Array_from_Set (xs : list string) : list string :=
  fold_left (fun acc x => if existsb (String.eqb x) acc then acc else acc ++ [x]) xs [].

(** [AdminProducts.availableCategories] (App.tsx 292-296). *)
Definition availableCategories (products : list Product) : list string :=
  Array_from_Set (["Software"; "E-book"; "Course"; "Template"] ++ map p_category products).

(** [CustomerHome.categories] (App.tsx 868). *)
Definition categories (products : list Product) : list string :=
  "All" :: Array_from_Set (map p_category products).

(** [CustomerHome.filteredProducts] (App.tsx 869). *)
Definition filteredProducts (categoryFilter : string) (products : list Product)
    : list Product :=
  if String.eqb categoryFilter "All" then products
  else filter (fun p => String.eqb (p_category p) categoryFilter) products.


(** The [supabase] client of [App] (App.tsx 1205-1215): created only when
    both credentials are truthy; [createClient] answers [None] when it
    throws. *)
Definition supabaseClient {Client : Type} (createClient : string -> string -> option Client)
    (settings : StoreSettings) : option Client :=
  if truthy_str (s_supabaseUrl settings) && truthy_str (s_supabaseKey settings)
  then createClient (or_empty (s_supabaseUrl settings)) (or_empty (s_supabaseKey settings))
  else None.

(* ------------------------------------------------------------------ *)
(** ** Orders and the [DataService] accessors ([dataService.ts]) *)

Inductive OrderStatus := PENDING | PAID | COMPLETED.

Record Order := mkOrder {
  o_id : string;
  o_items : list CartItem;
  o_total : Q;
  o_customerName : string;
  o_customerWhatsapp : string;
  o_paymentMethod : string;
  o_status : OrderStatus;
  o_date : string;
}.

(** A cart item is the product's own keys followed by [quantity]. *)
#[global] Instance codec_CartItem : Codec CartItem := {
  encode i := match encode (ci_product i) with
              | JObj fs => JObj (fs ++ [("quantity", encode (ci_quantity i))])
              | j => j
              end;
  decode j := match j with
    | JObj fs => p ← decode (JObj fs); q ← req "quantity" fs; Some (mkCartItem p q)
    | _ => None
    end;
}.

Definition OrderStatus_str (s : OrderStatus) : string :=
  match s with PENDING => "PENDING" | PAID => "PAID" | COMPLETED => "COMPLETED" end.

Definition OrderStatus_of (s : string) : option OrderStatus :=
  if String.eqb s "PENDING" then Some PENDING
  else if String.eqb s "PAID" then Some PAID
  else if String.eqb s "COMPLETED" then Some COMPLETED else None.

#[global] Instance codec_OrderStatus : Codec OrderStatus := {
  encode s := JStr (OrderStatus_str s);
  decode j := match j with JStr s => OrderStatus_of s | _ => None end;
}.

#[global] Instance codec_Order : Codec Order := {
  encode o := JObj [("id", encode (o_id o)); ("items", encode (o_items o));
                    ("total", encode (o_total o)); ("customerName", encode (o_customerName o));
                    ("customerWhatsapp", encode (o_customerWhatsapp o));
                    ("paymentMethod", encode (o_paymentMethod o));
                    ("status", encode (o_status o)); ("date", encode (o_date o))];
  decode j := match j with
    | JObj fs =>
        id ← req "id" fs; items ← req "items" fs; total ← req "total" fs;
        customerName ← req "customerName" fs; customerWhatsapp ← req "customerWhatsapp" fs;
        paymentMethod ← req "paymentMethod" fs; status ← req "status" fs;
        date ← req "date" fs;
        Some (mkOrder id items total customerName customerWhatsapp paymentMethod status date)
    | _ => None
    end;
}.

Definition initialPayments : list PaymentMethod :=
  [mkPaymentMethod "1" BANK "Bank BCA" (Some "1234567890") (Some "Admin Store") None
     (Some "https://upload.wikimedia.org/wikipedia/commons/5/5c/Bank_Central_Asia.svg") None;
   mkPaymentMethod "2" BANK "Bank Mandiri" (Some "0987654321") (Some "Admin Store") None
     (Some "https://upload.wikimedia.org/wikipedia/commons/a/ad/Bank_Mandiri_logo_2016.svg") None;
   mkPaymentMethod "3" EWALLET "DANA" (Some "081234567890") (Some "Admin Store") None
     (Some "https://upload.wikimedia.org/wikipedia/commons/7/72/Logo_dana_blue.svg") None;
   mkPaymentMethod "4" QRIS "QRIS Payment" (Some "N/A") (Some "DigiStore")
     (Some "Scan QR untuk membayar") None None;
   mkPaymentMethod "5" TRIPAY "Tripay Automatis" None None
     (Some "Metode pembayaran otomatis") None None].

Definition initialProducts : list Product :=
  [mkProduct "550e8400-e29b-41d4-a716-446655440001" "Premium UI Kit"
     "https://picsum.photos/id/1/400/400" "Design" "High quality UI Kit for mobile apps."
     150000 (Some 99000) None (Some true);
   mkProduct "550e8400-e29b-41d4-a716-446655440002" "React Dashboard Template"
     "https://picsum.photos/id/3/400/400" "Code"
     "Complete admin dashboard built with React and Tailwind."
     350000 (Some 299000) None (Some false);
   mkProduct "550e8400-e29b-41d4-a716-446655440003" "E-book: Mastering React"
     "https://picsum.photos/id/24/400/400" "Education"
     "A comprehensive guide to modern React development."
     75000 None None (Some true)].

Definition initialVouchers : list Voucher :=
  [mkVoucher "550e8400-e29b-41d4-a716-446655440004" "DISKON10" PERCENT 10 true;
   mkVoucher "550e8400-e29b-41d4-a716-446655440005" "HEMAT20K" FIXED 20000 true].

Definition initialAffiliates : list Affiliate :=
  [mkAffiliate "550e8400-e29b-41d4-a716-446655440006" "Partner Satu" "PARTNER1" "123"
     10 150000 "BCA 123456" true].

(** [DataService.getX] and [DataService.saveX]. *)
Definition getSettings (env : Env) (ls : LocalStorage) : option StoreSettings :=
  get env ls STORAGE_KEYS_SETTINGS (initialSettings env).
Definition getProducts (env : Env) (ls : LocalStorage) : option (list Product) :=
  get env ls STORAGE_KEYS_PRODUCTS initialProducts.
Definition getPayments (env : Env) (ls : LocalStorage) : option (list PaymentMethod) :=
  get env ls STORAGE_KEYS_PAYMENTS initialPayments.
Definition getVouchers (env : Env) (ls : LocalStorage) : option (list Voucher) :=
  get env ls STORAGE_KEYS_VOUCHERS initialVouchers.
Definition getAffiliates (env : Env) (ls : LocalStorage) : option (list Affiliate) :=
  get env ls STORAGE_KEYS_AFFILIATES initialAffiliates.
Definition getOrders (env : Env) (ls : LocalStorage) : option (list Order) :=
  get env ls STORAGE_KEYS_ORDERS [].

(** [saveOrder]: [set(ORDERS, [order, ...get(ORDERS, [])])]. [None] when
    the stored orders are not an [Order[]]. *)
Definition saveOrder (env : Env) (order : Order) (ls : LocalStorage) : option LocalStorage :=
  orders ← get env ls STORAGE_KEYS_ORDERS ([] : list Order);
  Some (set ls STORAGE_KEYS_ORDERS (order :: orders)).

(** [x.id] unchanged up to the id: [y] is [x] with [y]'s id. *)
Definition ids_only {A} `{HasId A} (old new : list A) : Prop :=
  Forall2 (fun x y => y = set_id x (get_id y)) old new.

(** The in-memory state after a push differs from the one before only in
    the ids of records. *)
Definition app_ids_only (a b : AppState) : Prop :=
  st_settings b = st_settings a /\
  ids_only (st_products a) (st_products b) /\
  ids_only (st_vouchers a) (st_vouchers b) /\
  ids_only (st_affiliates a) (st_affiliates b) /\
  ids_only (st_paymentMethods a) (st_paymentMethods b).

(* ------------------------------------------------------------------ *)
(** ** Spec-side notions used in the statements *)

(** The canonical form of a code: [s.trim().toUpperCase()] on ASCII text. *)
Definition ascii_upper (c : ascii) : ascii :=
  let n := nat_of_ascii c in
  if ((97 <=? n) && (n <=? 122))%nat then ascii_of_nat (n - 32) else c.

Definition is_js_space (c : ascii) : bool :=
  let n := nat_of_ascii c in
  ((n =? 32) || ((9 <=? n) && (n <=? 13)))%nat.

Fixpoint drop_space (s : string) : string :=
  match s with
  | String c r => if is_js_space c then drop_space r else s
  | EmptyString => EmptyString
  end.

Definition string_rev (s : string) : string :=
  string_of_list_ascii (rev (list_ascii_of_string s)).

Definition trim (s : string) : string := string_rev (drop_space (string_rev (drop_space s))).

Fixpoint upper (s : string) : string :=
  match s with
  | String c r => String (ascii_upper c) (upper r)
  | EmptyString => EmptyString
  end.

Definition canonical_code (s : string) : string := upper (trim s).

(** A canonical identifier: five runs of 8, 4, 4, 4 and 12 hexadecimal
    digits joined by hyphens (36 characters). *)
Definition hex_token (n : nat) (h : string) : Prop :=
  String.length h = n /\ Forall (fun c => is_hex c = true) (list_ascii_of_string h).

Definition canonical_uuid (s : string) : Prop :=
  exists h1 h2 h3 h4 h5,
    hex_token 8 h1 /\ hex_token 4 h2 /\ hex_token 4 h3 /\ hex_token 4 h4 /\
    hex_token 12 h5 /\
    s = String.append h1 (String "-" (String.append h2 (String "-" (String.append h3
          (String "-" (String.append h4 (String "-" h5))))))).

(* ------------------------------------------------------------------ *)
(** ** The worked scenario of the spec *)

Definition ui_kit : Product :=
  mkProduct "550e8400-e29b-41d4-a716-446655440001" "Premium UI Kit" "img" "Design" "d"
    150000 (Some 99000) None (Some true).
Definition ebook : Product :=
  mkProduct "550e8400-e29b-41d4-a716-446655440003" "E-book: Mastering React" "img"
    "Education" "d" 75000 None None (Some true).
Definition scenario_cart : list CartItem := [mkCartItem ui_kit 1; mkCartItem ebook 2].
Definition DISKON10 : Voucher := mkVoucher "v1" "DISKON10" PERCENT 10 true.
Definition HEMAT20K : Voucher := mkVoucher "v2" "HEMAT20K" FIXED 20000 true.
Definition PARTNER1 : Affiliate :=
  mkAffiliate "a1" "Partner Satu" "PARTNER1" "123" 10 150000 "BCA 123456" true.
Definition partner23 : Affiliate :=
  mkAffiliate "a2" "Partner Dua" "PARTNER2" "456" (23 # 10) 5000 "BNI 654321" true.

(** A store holding one payment method, and a remote whose tables are all
    empty. *)
Definition BANK_BCA : PaymentMethod :=
  mkPaymentMethod "pm1" BANK "BCA" (Some "1234567890") (Some "DigiStore") None None (Some true).
Definition local_store : AppState :=
  mkAppState (mkStoreSettings "DigiStore Pro" "Jl. Digital No. 1" "6281234567890"
                "admin@digistore.com" "d" "logo" (Some "https://x.supabase.co") (Some "key")
                None None None)
    [ui_kit] [DISKON10] [PARTNER1] [BANK_BCA].
Definition empty_remote : Remote := mkRemote (inr []) (inr []) (inr []) None (inr []).

Definition item_id (i : CartItem) : string := p_id (ci_product i).

(** Settings as [get] returns them after [set]: when [supabaseUrl] or
    [supabaseKey] is missing or empty, each is taken from the environment
    variable when that one is set and non-empty. *)
Definition read_back_settings (env : Env) (s : StoreSettings) : StoreSettings :=
  if truthy_str (s_supabaseUrl s) && truthy_str (s_supabaseKey s) then s else
  mkStoreSettings (s_storeName s) (s_address s) (s_whatsapp s) (s_email s)
    (s_description s) (s_logoUrl s)
    (if truthy_str (VITE_SUPABASE_URL env) then VITE_SUPABASE_URL env else s_supabaseUrl s)
    (if truthy_str (VITE_SUPABASE_ANON_KEY env) then VITE_SUPABASE_ANON_KEY env
     else s_supabaseKey s)
    (s_tripayApiKey s) (s_tripayPrivateKey s) (s_tripayMerchantCode s).

Definition with_url (s : StoreSettings) (o : option string) : StoreSettings :=
  mkStoreSettings (s_storeName s) (s_address s) (s_whatsapp s) (s_email s)
    (s_description s) (s_logoUrl s) o (s_supabaseKey s)
    (s_tripayApiKey s) (s_tripayPrivateKey s) (s_tripayMerchantCode s).

Definition with_key (s : StoreSettings) (o : option string) : StoreSettings :=
  mkStoreSettings (s_storeName s) (s_address s) (s_whatsapp s) (s_email s)
    (s_description s) (s_logoUrl s) (s_supabaseUrl s) o
    (s_tripayApiKey s) (s_tripayPrivateKey s) (s_tripayMerchantCode s).

(** [s] is [t] with every [x] or [y] replaced by one hex digit. *)
Fixpoint tmpl_ok (t s : string) : bool :=
  match t, s with
  | EmptyString, EmptyString => true
  | String c t', String d s' =>
      (if Ascii.eqb c "x" || Ascii.eqb c "y" then is_hex d else Ascii.eqb d c)
      && tmpl_ok t' s'
  | _, _ => false
  end.

(** A step that neither calls the remote nor throws. *)
Definition quiet {A} (p : SyncM A) : Prop :=
  forall s, exists x s', p s = (inr x, s') /\ ss_calls s' = ss_calls s.

(* ------------------------------------------------------------------ *)
(** ** Notions and samples for the code-level properties *)

(** An affiliate whose code and password match the login form. *)
Definition login_matches (toUpperCase : string -> string) (username password : string)
    (a : Affiliate) : bool :=
  String.eqb (a_code a) (toUpperCase username) && String.eqb (a_password a) password.

(** The [fetchError] stored for the first error that [fetchData] throws:
    the products, vouchers, affiliates and payment-methods queries in this
    order; the settings query never throws. *)
Definition pull_error (r : Remote) : option string :=
  match rm_products r with inl e => Some (fetchErrorOf e) | inr _ =>
  match rm_vouchers r with inl e => Some (fetchErrorOf e) | inr _ =>
  match rm_affiliates r with inl e => Some (fetchErrorOf e) | inr _ =>
  match rm_payments r with inl e => Some (fetchErrorOf e) | inr _ => None end end end end.

(** Sample records: an inactive affiliate, an order, and admin forms. *)
Definition retired_partner : Affiliate :=
  mkAffiliate "a9" "Partner Lama" "LAMA" "pw" 10 0 "" false.
Definition sample_order : Order :=
  mkOrder "o1" [mkCartItem ui_kit 1] 99000 "Budi" "0812" "1" PENDING "2024-01-01".
Definition old_order : Order :=
  mkOrder "o0" [mkCartItem ebook 2] 150000 "Sari" "0813" "2" PAID "2023-12-31".
Definition order_store : LocalStorage := set ∅ STORAGE_KEYS_ORDERS [old_order].

Definition edit_product_form : PartialProduct :=
  mkPartialProduct (Some "550e8400-e29b-41d4-a716-446655440001") (Some "Premium UI Kit v2")
    None None None (Some 120000) None None None.
Definition edit_voucher_form : PartialVoucher :=
  mkPartialVoucher (Some "v1") (Some "diskon15") None (Some 15%Q) None.
Definition edit_affiliate_form : PartialAffiliate :=
  mkPartialAffiliate (Some "a1") (Some "Partner Satu") (Some "partner1") (Some "456")
    None None None None.
Definition new_product_form : PartialProduct :=
  mkPartialProduct None (Some "Icon Pack") None None None (Some 50000) None None None.
Definition new_voucher_form : PartialVoucher :=
  mkPartialVoucher None (Some "baru5") None (Some 5%Q) None.
Definition new_affiliate_form : PartialAffiliate :=
  mkPartialAffiliate None (Some "Partner Dua") (Some "partner2") (Some "pw") None None None None.

Example scenario_subtotal : subTotal scenario_cart = 249000.
Proof. reflexivity. Qed.

Example scenario_percent : (total 249000 (Some DISKON10) == 224100)%Q.
Proof. reflexivity. Qed.

Example scenario_fixed : (total 249000 (Some HEMAT20K) == 229000)%Q.
Proof. reflexivity. Qed.

Example scenario_commission :
  snd (fst (applyReferral 249000 (Some "PARTNER1") [PARTNER1])) = 24900.
Proof. vm_compute. reflexivity. Qed.

(* ------------------------------------------------------------------ *)
(** ** Pricing *)

Lemma fold_left_sum {A} (f : A -> Z) (l : list A) (acc : Z) :
  fold_left (fun s x => s + f x) l acc = acc + fold_right (fun x r => f x + r) 0 l.
Proof.
  revert acc; induction l as [|x l IH]; intros acc; simpl.
  - lia.
  - rewrite IH. lia.
Qed.

(** C2: for every subtotal and every applied voucher (none, FIXED or
    PERCENT, any value), the checkout total equals
    max(0, subtotal - discount) and is never negative. *)
Theorem total_max0_nonneg (st : Z) (appliedVoucher : option Voucher) :
  (total st appliedVoucher == Qmax 0 (inject_Z st - discountAmount st appliedVoucher))%Q /\
  (0 <= total st appliedVoucher)%Q.
Proof.
  unfold total, Math_max0.
  set (x := (inject_Z st - discountAmount st appliedVoucher)%Q).
  destruct (Qle_bool x 0) eqn:E.
  - apply Qle_bool_iff in E. split.
    + symmetry. apply Q.max_l. exact E.
    + apply Qle_refl.
  - assert (Hx : (0 < x)%Q).
    { apply Qnot_le_lt. intros Hle. apply Qle_bool_iff in Hle. congruence. }
    split.
    + symmetry. apply Q.max_r. apply Qlt_le_weak. exact Hx.
    + apply Qlt_le_weak. exact Hx.
Qed.




(** C4 (as stated): the subtotal would be the sum of
    (discountPrice if present, else price) * quantity. It fails for a
    present discountPrice of 0, which [||] treats as absent. *)
Lemma subtotal_zero_discount_counterexample :
  ~ (forall cart : list CartItem,
       subTotal cart =
       fold_right (fun it acc =>
         (match p_discountPrice (ci_product it) with
          | Some d => d | None => p_price (ci_product it) end) * ci_quantity it + acc)
         0 cart).
Proof.
  intros H.
  specialize (H [mkCartItem (mkProduct "p" "Free" "img" "c" "d" 100 (Some 0) None None) 1]).
  vm_compute in H. discriminate H.
Qed.

(** C4 (amended): for every cart, the subtotal is the sum over the items
    of (discountPrice if present and non-zero, else price) * quantity. *)
Theorem subtotal_sum (cart : list CartItem) :
  subTotal cart =
  fold_right (fun it acc =>
    (match p_discountPrice (ci_product it) with
     | Some d => if Z.eqb d 0 then p_price (ci_product it) else d
     | None => p_price (ci_product it) end) * ci_quantity it + acc) 0 cart.
Proof.
  unfold subTotal.
  rewrite (fold_left_sum (fun item => or_num (p_discountPrice (ci_product item))
                                         (p_price (ci_product item)) * ci_quantity item)).
  rewrite Z.add_0_l.
  induction cart as [|it cart IH]; simpl; [reflexivity|].
  rewrite IH. unfold or_num. reflexivity.
Qed.

(* ------------------------------------------------------------------ *)
(** ** Referral commission *)

Lemma find_code_some (rc : string) (affs : list Affiliate) (b : Affiliate) :
  List.find (fun a => String.eqb (a_code a) rc) affs = Some b ->
  In b affs /\ a_code b = rc.
Proof.
  intros H. apply find_some in H as [Hin Heq].
  split; [exact Hin | apply String.eqb_eq; exact Heq].
Qed.


(** The commission is rounded from the double-precision quotient, not from
    the exact one: at a rate of 2.3 on a subtotal of 1500 the double product
    is 3449.9999999999995 and the affiliate is credited 34, where
    round-half-up of the exact 34.5 would give 35. *)
Lemma referral_double_rounding :
  snd (fst (applyReferral 1500 (Some "PARTNER2") [partner23])) = 34 /\
  Math_round (inject_Z 1500 * a_commissionRate partner23 / inject_Z 100) = 35.
Proof. split; vm_compute; reflexivity. Qed.



(** C5: for every affiliate list and checkout, when no referral code is
    present (absent or empty), or no affiliate's canonical (trimmed,
    upper-cased) code equals the canonical referral code, or every
    affiliate matching it canonically is inactive, the checkout credits
    zero commission and leaves the affiliate collection unchanged. *)
Theorem checkout_no_credit (selectedPayment : string) (cart : list CartItem)
    (referralCode : option string) (affs : list Affiliate) :
  (referralCode = None \/ referralCode = Some EmptyString \/
   (exists rc, referralCode = Some rc /\
      forall a, In a affs -> canonical_code (a_code a) <> canonical_code rc) \/
   (exists rc, referralCode = Some rc /\
      forall a, In a affs -> canonical_code (a_code a) = canonical_code rc ->
                a_isActive a = false)) ->
  handleCheckout selectedPayment cart referralCode affs = (affs, 0).
Proof.
  intros H. unfold handleCheckout.
  destruct (String.eqb selectedPayment EmptyString); [reflexivity|].
  destruct cart as [|it cart]; [reflexivity|].
  unfold applyReferral.
  destruct H as [H | [H | [[rc [H Hno]] | [rc [H Hoff]]]]]; subst referralCode.
  - reflexivity.
  - reflexivity.
  - destruct (String.eqb rc EmptyString); [reflexivity|].
    destruct (List.find (fun a => String.eqb (a_code a) rc) affs) as [b|] eqn:F;
      [|reflexivity].
    apply find_code_some in F as [Hin Hc].
    exfalso. apply (Hno b Hin). rewrite Hc. reflexivity.
  - destruct (String.eqb rc EmptyString); [reflexivity|].
    destruct (List.find (fun a => String.eqb (a_code a) rc) affs) as [b|] eqn:F;
      [|reflexivity].
    apply find_code_some in F as [Hin Hc].
    rewrite (Hoff b Hin); [reflexivity|]. rewrite Hc. reflexivity.
Qed.

Lemma checkout_no_credit_witness :
  handleCheckout "1" scenario_cart (Some "partner2") [PARTNER1] = ([PARTNER1], 0).
Proof.
  apply checkout_no_credit. right. right. left.
  exists "partner2". split; [reflexivity|].
  intros a [Ha | []]. subst a. vm_compute. discriminate.
Defined.

(* ------------------------------------------------------------------ *)
(** ** Cart *)

Lemma NoDup_map_split {A B} (g : A -> B) (pre post : list A) (x : A) :
  NoDup (map g (pre ++ x :: post)) ->
  forall y, In y (pre ++ post) -> g y <> g x.
Proof.
  intros Hnd y Hy Heq. rewrite map_app in Hnd. simpl in Hnd.
  apply NoDup_app in Hnd as [_ [Hdisj Hpost]].
  apply NoDup_cons in Hpost as [Hnotin _].
  apply in_app_or in Hy as [Hy | Hy].
  - apply (Hdisj (g y)).
    + apply list_elem_of_In. apply in_map. exact Hy.
    + rewrite Heq. apply list_elem_of_In. left. reflexivity.
  - apply Hnotin. rewrite <- Heq. apply list_elem_of_In. apply in_map. exact Hy.
Qed.

Lemma map_id_on {A} (f : A -> A) (l : list A) :
  (forall x, In x l -> f x = x) -> map f l = l.
Proof.
  induction l as [|x l IH]; intros H; simpl; [reflexivity|].
  rewrite H by (left; reflexivity). rewrite IH; [reflexivity|].
  intros y Hy. apply H. right. exact Hy.
Qed.

(** C10: for every cart and product, [addToCart] preserves the invariant
    (unique item ids, positive quantities); when an item with the
    product's id is in the cart exactly that item's quantity grows by one,
    in place, and every other item is unchanged; otherwise the product is
    appended with quantity 1. *)
Theorem addToCart_spec (product : Product) (prev : list CartItem) :
  cart_inv prev ->
  cart_inv (addToCart product prev) /\
  (forall it, In it prev -> item_id it = p_id product ->
     exists pre post, prev = pre ++ it :: post /\
       addToCart product prev =
       pre ++ mkCartItem (ci_product it) (ci_quantity it + 1) :: post) /\
  ((forall it, In it prev -> item_id it <> p_id product) ->
     addToCart product prev = prev ++ [mkCartItem product 1]).
Proof.
  intros [Hnd Hpos].
  set (f := fun p : CartItem => if String.eqb (p_id (ci_product p)) (p_id product)
                               then mkCartItem (ci_product p) (ci_quantity p + 1) else p).
  assert (Hids : map item_id (map f prev) = map item_id prev).
  { rewrite map_map. apply map_ext. intros p. unfold f, item_id.
    destruct (String.eqb _ _); reflexivity. }
  unfold addToCart.
  destruct (List.find (fun p => String.eqb (p_id (ci_product p)) (p_id product)) prev)
    as [e|] eqn:F.
  - (* the product is already in the cart *)
    split; [split|split].
    + fold f. unfold item_id in Hids. rewrite Hids. exact Hnd.
    + fold f. apply List.Forall_map. eapply Forall_impl; [exact Hpos|].
      intros p Hp. simpl in Hp. unfold f. destruct (String.eqb _ _); [simpl; lia | exact Hp].
    + intros it Hin Hid. apply in_split in Hin as [pre [post ->]].
      exists pre, post. split; [reflexivity|]. fold f.
      assert (Hother : forall y, In y (pre ++ post) -> f y = y).
      { intros y Hy. unfold f.
        pose proof (NoDup_map_split item_id pre post it Hnd y Hy) as Hne.
        unfold item_id in Hne, Hid. rewrite <- Hid.
        apply String.eqb_neq in Hne. rewrite Hne. reflexivity. }
      rewrite map_app. simpl.
      rewrite (map_id_on f pre), (map_id_on f post).
      * unfold f. unfold item_id in Hid. rewrite Hid, String.eqb_refl. reflexivity.
      * intros y Hy. apply Hother. apply in_or_app. right. exact Hy.
      * intros y Hy. apply Hother. apply in_or_app. left. exact Hy.
    + intros Hnone. exfalso. apply find_some in F as [Hin Heq].
      apply String.eqb_eq in Heq. apply (Hnone e Hin). exact Heq.
  - (* a new item *)
    pose proof (find_none _ _ F) as Hnone.
    split; [split|split].
    + rewrite map_app. simpl. apply NoDup_app. split; [exact Hnd|]. split.
      * intros x Hx Hx'. apply list_elem_of_In in Hx. apply list_elem_of_In in Hx'.
        destruct Hx' as [Hx' | []]. subst x.
        apply in_map_iff in Hx as [y [Hy Hiny]].
        specialize (Hnone y Hiny). simpl in Hnone.
        rewrite Hy, String.eqb_refl in Hnone. discriminate.
      * apply NoDup_singleton.
    + apply Forall_app. split; [exact Hpos|]. repeat constructor.
    + intros it Hin Hid. exfalso. specialize (Hnone it Hin). simpl in Hnone.
      unfold item_id in Hid. rewrite Hid, String.eqb_refl in Hnone. discriminate.
    + intros _. reflexivity.
Qed.

Lemma addToCart_spec_witness :
  cart_inv scenario_cart /\
  cart_inv (addToCart ui_kit scenario_cart) /\
  addToCart ui_kit scenario_cart = [mkCartItem ui_kit 2; mkCartItem ebook 2].
Proof.
  assert (Hinv : cart_inv scenario_cart).
  { split.
    - apply (bool_decide_unpack _). vm_compute. exact I.
    - repeat constructor; simpl; lia. }
  split; [exact Hinv|]. split.
  - apply (proj1 (addToCart_spec ui_kit scenario_cart Hinv)).
  - destruct (proj1 (proj2 (addToCart_spec ui_kit scenario_cart Hinv))
                (mkCartItem ui_kit 1) (or_introl eq_refl) eq_refl)
      as [pre [post [Hprev Hres]]].
    rewrite Hres. vm_compute in Hprev. vm_compute.
    destruct pre as [|x pre]; [injection Hprev as <-; reflexivity|].
    injection Hprev as -> Hprev. destruct pre; [discriminate|].
    injection Hprev as _ Hprev. destruct pre; discriminate.
Defined.

(* ------------------------------------------------------------------ *)
(** ** Persistence round trip *)

Lemma decode_list_encode {A} `{Codec A} (l : list A) :
  (forall x, In x l -> decode (encode x) = Some x) ->
  decode_list decode (map encode l) = Some l.
Proof.
  induction l as [|x l IH]; intros Hx; simpl; [reflexivity|].
  rewrite Hx by (left; reflexivity). simpl.
  rewrite IH; [reflexivity|]. intros y Hy. apply Hx. right. exact Hy.
Qed.

Lemma list_roundtrip {A} `{Codec A} :
  (forall x : A, decode (encode x) = Some x) ->
  forall l : list A, decode (encode l) = Some l.
Proof. intros Hx l. apply decode_list_encode. intros x _. apply Hx. Qed.

Lemma get_set_other (env : Env) {T} `{Codec T} (ls : LocalStorage) (key : string) (v d : T) :
  key <> STORAGE_KEYS_SETTINGS -> get env (set ls key v) key d = decode (encode v).
Proof.
  intros Hk. unfold get, set, get_json. rewrite lookup_insert_eq.
  apply String.eqb_neq in Hk. rewrite Hk. reflexivity.
Qed.

Lemma Product_roundtrip (p : Product) : decode (encode p) = Some p.
Proof.
  destruct p as [i n im c d pr dp f ip].
  destruct dp, f, ip; reflexivity.
Qed.

Lemma Voucher_roundtrip (v : Voucher) : decode (encode v) = Some v.
Proof. destruct v as [i c t va a]; destruct t; reflexivity. Qed.

Lemma Affiliate_roundtrip (a : Affiliate) : decode (encode a) = Some a.
Proof. destruct a; reflexivity. Qed.

Lemma PaymentMethod_roundtrip (p : PaymentMethod) : decode (encode p) = Some p.
Proof.
  destruct p as [i t n an am d l a].
  destruct t, an, am, d, l, a; reflexivity.
Qed.

Lemma StoreSettings_roundtrip (s : StoreSettings) : decode (encode s) = Some s.
Proof.
  destruct s as [n a w e d l u k t1 t2 t3].
  destruct u, k, t1, t2, t3; reflexivity.
Qed.

Lemma jget_jset_eq (k : string) (v : json) (fs : list (string * json)) :
  jget k (jset k v fs) = Some v.
Proof.
  induction fs as [|[k' v'] fs IH]; simpl.
  - rewrite String.eqb_refl. reflexivity.
  - destruct (String.eqb k k') eqn:E; simpl.
    + rewrite E. reflexivity.
    + rewrite E. exact IH.
Qed.

Lemma jget_jset_neq (k k' : string) (v : json) (fs : list (string * json)) :
  k <> k' -> jget k' (jset k v fs) = jget k' fs.
Proof.
  intros Hne. induction fs as [|[k'' v'] fs IH]; simpl.
  - apply String.eqb_neq in Hne. rewrite String.eqb_sym, Hne. reflexivity.
  - destruct (String.eqb k k'') eqn:E; simpl.
    + apply String.eqb_eq in E. subst k''.
      apply String.eqb_neq in Hne. rewrite String.eqb_sym, Hne. reflexivity.
    + destruct (String.eqb k' k''); [reflexivity | exact IH].
Qed.

Lemma req_jset_neq {A} `{Codec A} (k k' : string) (v : json) (fs : list (string * json)) :
  k <> k' -> @req A _ k' (jset k v fs) = req k' fs.
Proof. intros Hne. unfold req. rewrite jget_jset_neq by exact Hne. reflexivity. Qed.

Lemma opt_jset_neq {A} `{Codec A} (k k' : string) (v : json) (fs : list (string * json)) :
  k <> k' -> @opt A _ k' (jset k v fs) = opt k' fs.
Proof. intros Hne. unfold opt. rewrite jget_jset_neq by exact Hne. reflexivity. Qed.

Lemma opt_jset_str (k x : string) (fs : list (string * json)) :
  @opt string _ k (jset k (JStr x) fs) = Some (Some x).
Proof. unfold opt. rewrite jget_jset_eq. reflexivity. Qed.

(** Open the [decode] chain of a settings object into its field reads. *)
Ltac open_settings_chain H :=
  repeat match type of H with
         | context [@req ?A ?C ?k ?fs] =>
             let x := fresh "f" in
             destruct (@req A C k fs) as [x|]; simpl in H; [|discriminate H]
         | context [@opt ?A ?C ?k ?fs] =>
             let x := fresh "o" in
             destruct (@opt A C k fs) as [x|]; simpl in H; [|discriminate H]
         end.

Lemma decode_set_url (fs : list (string * json)) (s : StoreSettings) (x : string) :
  decode (JObj fs) = Some s ->
  decode (JObj (jset "supabaseUrl" (JStr x) fs)) = Some (with_url s (Some x)).
Proof.
  intros H. cbn [decode codec_StoreSettings] in *.
  rewrite opt_jset_str.
  rewrite !req_jset_neq by discriminate. rewrite !opt_jset_neq by discriminate.
  open_settings_chain H. injection H as <-. reflexivity.
Qed.

Lemma decode_set_key (fs : list (string * json)) (s : StoreSettings) (x : string) :
  decode (JObj fs) = Some s ->
  decode (JObj (jset "supabaseKey" (JStr x) fs)) = Some (with_key s (Some x)).
Proof.
  intros H. cbn [decode codec_StoreSettings] in *.
  rewrite opt_jset_str.
  rewrite !req_jset_neq by discriminate. rewrite !opt_jset_neq by discriminate.
  open_settings_chain H. injection H as <-. reflexivity.
Qed.

Lemma jtruthy_str (o : option string) : jtruthy (option_map JStr o) = truthy_str o.
Proof. destruct o; reflexivity. Qed.

Lemma settings_env_roundtrip (env : Env) (s : StoreSettings) :
  decode (JObj (inject_env env (match encode s with JObj fs => fs | _ => [] end)))
  = Some (read_back_settings env s).
Proof.
  set (fs := match encode s with JObj fs => fs | _ => [] end).
  assert (Hdec : decode (JObj fs) = Some s) by apply StoreSettings_roundtrip.
  assert (Hu : jget "supabaseUrl" fs = option_map JStr (s_supabaseUrl s)).
  { destruct s as [n a w e d l u k t1 t2 t3]. destruct u, k, t1, t2, t3; reflexivity. }
  assert (Hk : jget "supabaseKey" fs = option_map JStr (s_supabaseKey s)).
  { destruct s as [n a w e d l u k t1 t2 t3]. destruct u, k, t1, t2, t3; reflexivity. }
  clearbody fs.
  unfold inject_env, read_back_settings. rewrite Hu, Hk, !jtruthy_str.
  destruct (truthy_str (s_supabaseUrl s)), (truthy_str (s_supabaseKey s));
    cbn [negb orb andb]; try exact Hdec;
    destruct env as [[eu|] [ek|]];
    cbn [truthy_str or_empty VITE_SUPABASE_URL VITE_SUPABASE_ANON_KEY];
    try destruct (String.eqb eu EmptyString); try destruct (String.eqb ek EmptyString);
    cbn [negb];
    first [ rewrite (decode_set_key _ _ _ (decode_set_url _ _ _ Hdec))
          | rewrite (decode_set_url _ _ _ Hdec)
          | rewrite (decode_set_key _ _ _ Hdec)
          | rewrite Hdec ];
    destruct s; reflexivity.
Qed.

(** C9 (as stated): writing any managed collection and reading the same
    key back gives the written value. It fails for settings written
    without connection credentials when the build environment provides
    them: [get] fills them in. *)
Lemma persist_roundtrip_counterexample :
  ~ (forall (env : Env) (c : Collection) (ls : LocalStorage) (v d : collection_type c),
       get_collection env c (save_collection c ls v) d = Some v).
Proof.
  intros H.
  set (s := mkStoreSettings "DigiStore Pro" "Jl. Digital No. 1" "628" "a@b.c" "d" "logo"
              None None None None None).
  specialize (H (mkEnv (Some "https://demo.supabase.co") (Some "anon-key"))
                CSettings ∅ s s).
  vm_compute in H. discriminate H.
Qed.

(** C9 (amended): for every collection and value, writing it to the
    Persistent Store and reading the same key back with no remote pull in
    between gives the written value for products, vouchers, affiliates
    and payment methods; for settings it gives the written value except
    that, when the written supabaseUrl or supabaseKey is missing or empty,
    each of the two is replaced by VITE_SUPABASE_URL / VITE_SUPABASE_ANON_KEY
    of the build environment when that variable is set and non-empty. *)
Theorem persist_roundtrip (env : Env) (c : Collection) (ls : LocalStorage)
    (v d : collection_type c) :
  get_collection env c (save_collection c ls v) d =
  match c return collection_type c -> option (collection_type c) with
  | CSettings => fun s => Some (read_back_settings env s)
  | _ => fun v => Some v
  end v.
Proof.
  unfold get_collection, save_collection.
  destruct c.
  - rewrite get_set_other by discriminate. apply list_roundtrip, Product_roundtrip.
  - rewrite get_set_other by discriminate. apply list_roundtrip, Voucher_roundtrip.
  - rewrite get_set_other by discriminate. apply list_roundtrip, Affiliate_roundtrip.
  - unfold get, set, get_json. rewrite lookup_insert_eq.
    exact (settings_env_roundtrip env v).
  - rewrite get_set_other by discriminate. apply list_roundtrip, PaymentMethod_roundtrip.
Qed.

(* ------------------------------------------------------------------ *)
(** ** Identifier normalisation *)

Lemma string_append_nil (s : string) : String.append s EmptyString = s.
Proof.
  induction s as [|c s IH]; [reflexivity|].
  change (String c (String.append s EmptyString) = String c s). rewrite IH. reflexivity.
Qed.

Lemma hex_run_app (n : nat) (h rest : string) :
  hex_token n h -> hex_run n (String.append h rest) = Some rest.
Proof.
  revert n. induction h as [|c h IH]; intros n [Hlen Hhex]; simpl in *.
  - subst n. reflexivity.
  - destruct n as [|n]; [discriminate|].
    inversion Hhex as [|? ? Hc Hh]; subst. simpl. rewrite Hc.
    apply IH. split; [lia | exact Hh].
Qed.

Lemma hex_run_split (n : nat) (s rest : string) :
  hex_run n s = Some rest -> exists h, hex_token n h /\ s = String.append h rest.
Proof.
  revert s. induction n as [|n IH]; intros s H; simpl in H.
  - injection H as <-. exists EmptyString. split; [split; [reflexivity | constructor] | reflexivity].
  - destruct s as [|c s]; [discriminate|].
    destruct (is_hex c) eqn:Hc; [|discriminate].
    destruct (IH s H) as [h [[Hlen Hhex] ->]].
    exists (String c h). split; [split|].
    + simpl. lia.
    + simpl. constructor; assumption.
    + reflexivity.
Qed.

Lemma hyphen_inv (s r : string) : hyphen s = Some r -> s = String "-" r.
Proof.
  destruct s as [|c s]; simpl; [discriminate|].
  destruct (Ascii.eqb c "-") eqn:E; [|discriminate].
  apply Ascii.eqb_eq in E. intros H. injection H as <-. subst c. reflexivity.
Qed.

(** [isValidUUID] accepts exactly the canonical identifiers. *)
Lemma isValidUUID_canonical (s : string) : isValidUUID s = true <-> canonical_uuid s.
Proof.
  split.
  - unfold isValidUUID, mbind, option_bind. intros H.
    destruct (hex_run 8 s) as [s1|] eqn:E1; [|simpl in H; discriminate].
    destruct (hyphen s1) as [s2|] eqn:E2; [|simpl in H; discriminate].
    destruct (hex_run 4 s2) as [s3|] eqn:E3; [|simpl in H; discriminate].
    destruct (hyphen s3) as [s4|] eqn:E4; [|simpl in H; discriminate].
    destruct (hex_run 4 s4) as [s5|] eqn:E5; [|simpl in H; discriminate].
    destruct (hyphen s5) as [s6|] eqn:E6; [|simpl in H; discriminate].
    destruct (hex_run 4 s6) as [s7|] eqn:E7; [|simpl in H; discriminate].
    destruct (hyphen s7) as [s8|] eqn:E8; [|simpl in H; discriminate].
    destruct (hex_run 12 s8) as [s9|] eqn:E9; [|simpl in H; discriminate].
    destruct s9; [|simpl in H; discriminate].
    apply hex_run_split in E1 as [h1 [T1 ->]]. apply hex_run_split in E3 as [h2 [T2 ->]].
    apply hex_run_split in E5 as [h3 [T3 ->]]. apply hex_run_split in E7 as [h4 [T4 ->]].
    apply hex_run_split in E9 as [h5 [T5 ->]].
    apply hyphen_inv in E2, E4, E6, E8. subst.
    exists h1, h2, h3, h4, h5. repeat split; try apply T1; try apply T2; try apply T3;
      try apply T4; try apply T5.
    rewrite !string_append_nil. reflexivity.
  - intros (h1 & h2 & h3 & h4 & h5 & T1 & T2 & T3 & T4 & T5 & ->).
    unfold isValidUUID.
    rewrite (hex_run_app 8 h1 _ T1). cbn -[hex_run].
    rewrite (hex_run_app 4 h2 _ T2). cbn -[hex_run].
    rewrite (hex_run_app 4 h3 _ T3). cbn -[hex_run].
    rewrite (hex_run_app 4 h4 _ T4). cbn -[hex_run].
    rewrite <- (string_append_nil h5), (hex_run_app 12 h5 _ T5). reflexivity.
Qed.

(** [Math.random() * 16 | 0] lies in [0, 16). *)
Lemma draw_range (q : Q) :
  (0 <= q)%Q -> (q < 1)%Q -> 0 <= Qfloor (q * inject_Z 16) < 16.
Proof.
  intros H0 H1. split.
  - change 0 with (Qfloor 0). apply Qfloor_resp_le.
    apply Qmult_le_0_compat; [exact H0 | discriminate].
  - assert (Hx : (q * inject_Z 16 < inject_Z 16)%Q).
    { apply Qlt_le_trans with (1 * inject_Z 16)%Q.
      - apply Qmult_lt_r; [reflexivity | exact H1].
      - rewrite Qmult_1_l. apply Qle_refl. }
    pose proof (Qfloor_le (q * inject_Z 16)) as Hf.
    rewrite Zlt_Qlt. eapply Qle_lt_trans; [exact Hf | exact Hx].
Qed.

Lemma small_cases (v : Z) :
  0 <= v < 16 -> exists k : nat, (k < 16)%nat /\ v = Z.of_nat k.
Proof. intros H. exists (Z.to_nat v). split; lia. Qed.

(** One digit of [v.toString(16)], for [0 <= v < 16]. *)
Lemma toString16_digit (v : Z) :
  0 <= v < 16 ->
  toString16 v = String (hex_char v) EmptyString /\ is_hex (hex_char v) = true.
Proof.
  intros H. destruct (small_cases v H) as [k [Hk ->]].
  do 16 (destruct k as [|k]; [split; reflexivity|]). lia.
Qed.

Lemma y_digit_range (r : Z) : 0 <= r < 16 -> 0 <= Z.lor (Z.land r 3) 8 < 16.
Proof.
  intros H. destruct (small_cases r H) as [k [Hk ->]].
  do 16 (destruct k as [|k]; [vm_compute; split; congruence|]). lia.
Qed.

Lemma fill_template_ok (Math_random : nat -> Q) :
  (forall k, 0 <= Math_random k /\ Math_random k < 1)%Q ->
  forall t n, tmpl_ok t (fst (fill_template Math_random t n)) = true.
Proof.
  intros HR t. induction t as [|c t IH]; intros n; [reflexivity|].
  cbn [fill_template]. destruct (Ascii.eqb c "x" || Ascii.eqb c "y") eqn:Exy.
  - destruct (fill_template Math_random t (S n)) as [s n'] eqn:F.
    pose proof (draw_range _ (proj1 (HR n)) (proj2 (HR n))) as Hr.
    set (r := Qfloor (Math_random n * inject_Z 16)) in *.
    set (v := if Ascii.eqb c "x" then r else Z.lor (Z.land r 3) 8).
    assert (Hv : 0 <= v < 16).
    { unfold v. destruct (Ascii.eqb c "x"); [exact Hr | apply y_digit_range; exact Hr]. }
    destruct (toString16_digit v Hv) as [-> Hhex]. cbn -[is_hex].
    change (String.append (String (hex_char v) EmptyString) s) with (String (hex_char v) s).
    rewrite Exy, Hhex. simpl. specialize (IH (S n)). rewrite F in IH. exact IH.
  - unfold rbind, rret.
    destruct (fill_template Math_random t n) as [s n'] eqn:F. simpl.
    rewrite Exy, Ascii.eqb_refl. simpl. specialize (IH n). rewrite F in IH. exact IH.
Qed.

Lemma template_valid (s : string) : tmpl_ok uuid_template s = true -> isValidUUID s = true.
Proof.
  intros H. unfold uuid_template in H.
  do 36 (destruct s as [|?c s]; [simpl in H; rewrite ?andb_false_r in H; discriminate|]).
  destruct s; [|simpl in H; rewrite ?andb_false_r in H; discriminate].
  simpl in H. repeat rewrite andb_true_iff in H.
  repeat match goal with
         | H : _ /\ _ |- _ => destruct H
         | H : Ascii.eqb _ _ = true |- _ => apply Ascii.eqb_eq in H; subst
         end.
  unfold isValidUUID, mbind, option_bind.
  repeat (simpl; match goal with
                 | H : is_hex ?c = true |- context [is_hex ?c] => rewrite H
                 end).
  reflexivity.
Qed.

Lemma rmapM_fst_Forall {A B} (f : A -> Rand B) (P : B -> Prop) :
  (forall x n, P (fst (f x n))) -> forall l n, Forall P (fst (rmapM f l n)).
Proof.
  intros Hf l. induction l as [|x r IH]; intros n; simpl; [constructor|].
  unfold rbind, rret.
  destruct (f x n) as [y n1] eqn:E1. destruct (rmapM f r n1) as [ys n2] eqn:E2. simpl.
  constructor.
  - specialize (Hf x n). rewrite E1 in Hf. exact Hf.
  - specialize (IH n1). rewrite E2 in IH. exact IH.
Qed.

Lemma rmapM_fixed {A} (f : A -> Rand A) (P : A -> Prop) :
  (forall x n, P x -> f x n = (x, n)) -> forall l n, Forall P l -> rmapM f l n = (l, n).
Proof.
  intros Hf l. induction l as [|x r IH]; intros n Hl; simpl; [reflexivity|].
  apply Forall_cons in Hl as [Hx Hr].
  unfold rbind, rret. rewrite (Hf x n Hx), (IH n Hr). reflexivity.
Qed.

Lemma rmapM_keeps {A} (f : A -> Rand A) (P : A -> Prop) :
  (forall x n, P x -> f x n = (x, n)) ->
  forall l n, Forall2 (fun x y => P x -> y = x) l (fst (rmapM f l n)).
Proof.
  intros Hf l. induction l as [|x r IH]; intros n; simpl; [constructor|].
  unfold rbind, rret.
  destruct (f x n) as [y n1] eqn:E1. destruct (rmapM f r n1) as [ys n2] eqn:E2. simpl.
  constructor.
  - intros Hx. rewrite (Hf x n Hx) in E1. congruence.
  - specialize (IH n1). rewrite E2 in IH. exact IH.
Qed.

Lemma generateUUID_valid (randomUUID : option (nat -> string)) (Math_random : nat -> Q) :
  (forall k, 0 <= Math_random k /\ Math_random k < 1)%Q ->
  (forall g k, randomUUID = Some g -> canonical_uuid (g k)) ->
  forall n, isValidUUID (fst (generateUUID randomUUID Math_random n)) = true.
Proof.
  intros HR HC n. unfold generateUUID. destruct randomUUID as [g|] eqn:E.
  - simpl. apply isValidUUID_canonical. apply (HC g). reflexivity.
  - apply template_valid, fill_template_ok, HR.
Qed.

(** C8. Id normalisation is idempotent. A record whose id is already a
    canonical 36-character hyphenated hexadecimal token is returned as it
    is, without drawing randomness. Normalising a collection
    ([xs.map(ensureUuid)]) keeps every record whose id was canonical and
    leaves only canonical ids. Normalising the written-back result again
    returns it unchanged, so both runs give the same ids. This assumes that
    [Math.random] lies in [0, 1) and that [crypto.randomUUID], when present,
    returns canonical tokens. *)
Theorem ensureUuid_idempotent {A} `{HasId A}
  (randomUUID : option (nat -> string)) (Math_random : nat -> Q)
  (Hset : forall x i, get_id (set_id x i) = i)
  (HR : forall k, (0 <= Math_random k /\ Math_random k < 1)%Q)
  (HC : forall g k, randomUUID = Some g -> canonical_uuid (g k)) :
  (forall x n, canonical_uuid (get_id x) ->
     ensureUuid randomUUID Math_random x n = (x, n)) /\
  (forall l n m,
     let l1 := fst (rmapM (ensureUuid randomUUID Math_random) l n) in
     Forall2 (fun x y => canonical_uuid (get_id x) -> y = x) l l1 /\
     Forall (fun x => canonical_uuid (get_id x)) l1 /\
     rmapM (ensureUuid randomUUID Math_random) l1 m = (l1, m)).
Proof.
  assert (Hkeep : forall x n, canonical_uuid (get_id x) ->
                  ensureUuid randomUUID Math_random x n = (x, n)).
  { intros x n Hx. apply isValidUUID_canonical in Hx.
    unfold ensureUuid. rewrite Hx. reflexivity. }
  split; [exact Hkeep|].
  intros l n m l1. split; [|split].
  - apply rmapM_keeps. exact Hkeep.
  - apply rmapM_fst_Forall. intros x k. apply isValidUUID_canonical.
    unfold ensureUuid. destruct (isValidUUID (get_id x)) eqn:E; simpl; [exact E|].
    unfold rbind, rret.
    pose proof (generateUUID_valid randomUUID Math_random HR HC k) as G.
    destruct (generateUUID randomUUID Math_random k) as [i k']. simpl.
    rewrite Hset. exact G.
  - apply rmapM_fixed with (P := fun x => canonical_uuid (get_id x)); [exact Hkeep|].
    apply rmapM_fst_Forall. intros x k. apply isValidUUID_canonical.
    unfold ensureUuid. destruct (isValidUUID (get_id x)) eqn:E; simpl; [exact E|].
    unfold rbind, rret.
    pose proof (generateUUID_valid randomUUID Math_random HR HC k) as G.
    destruct (generateUUID randomUUID Math_random k) as [i k']. simpl.
    rewrite Hset. exact G.
Qed.

Lemma ensureUuid_idempotent_witness :
  (forall (x : Product) i, get_id (set_id x i) = i) /\
  (forall k : nat, (0 <= (fun _ : nat => 1 # 2) k /\ (fun _ : nat => 1 # 2) k < 1)%Q) /\
  (forall (g : nat -> string) (k : nat), None = Some g -> canonical_uuid (g k)) /\
  ((forall (x : Product) n, canonical_uuid (get_id x) ->
      ensureUuid None (fun _ => 1 # 2) x n = (x, n)) /\
   (forall (l : list Product) n m,
      let l1 := fst (rmapM (ensureUuid None (fun _ => 1 # 2)) l n) in
      Forall2 (fun x y => canonical_uuid (get_id x) -> y = x) l l1 /\
      Forall (fun x => canonical_uuid (get_id x)) l1 /\
      rmapM (ensureUuid None (fun _ => 1 # 2)) l1 m = (l1, m))).
Proof.
  assert (Hset : forall (x : Product) i, get_id (set_id x i) = i) by (intros; reflexivity).
  assert (HR : forall k : nat, (0 <= (fun _ : nat => 1 # 2) k /\ (fun _ : nat => 1 # 2) k < 1)%Q)
    by (intros; split; vm_compute; [discriminate | reflexivity]).
  assert (HC : forall (g : nat -> string) (k : nat), None = Some g -> canonical_uuid (g k))
    by (intros g k E; discriminate E).
  split; [exact Hset|]. split; [exact HR|]. split; [exact HC|].
  exact (ensureUuid_idempotent None (fun _ => 1 # 2) Hset HR HC).
Defined.

Section PushOrder.
Variable randomUUID : option (nat -> string).
Variable Math_random : nat -> Q.
Variable upsert : string -> list json -> option string.

Lemma runs_ret : runs_tables upsert [] (sret tt).
Proof.
  intros s. exists []. rewrite app_nil_r. split; [reflexivity|]. split; [constructor|].
  left. split; [reflexivity|]. split; [reflexivity | constructor].
Qed.

Lemma runs_upsert (table : string) (rows : list json) :
  runs_tables upsert [table] (upsert_or_throw upsert table rows).
Proof.
  intros s. unfold upsert_or_throw. cbn [ss_calls].
  destruct (upsert table rows) as [e|] eqn:E.
  - exists [mkUpsertCall table rows (Some e)]. split; [reflexivity|].
    split; [constructor; [exact (eq_sym E) | constructor]|].
    right. exists [], (mkUpsertCall table rows (Some e)), e.
    repeat split; constructor.
  - exists [mkUpsertCall table rows None]. split; [reflexivity|].
    split; [constructor; [exact (eq_sym E) | constructor]|].
    left. repeat split. constructor; [reflexivity | constructor].
Qed.

Lemma quiet_modify_app (f : AppState -> AppState) : quiet (modify_app f).
Proof. intros s. eexists _, _. split; reflexivity. Qed.

Lemma quiet_ensureUuids {A} `{HasId A} (l : list A) :
  quiet (ensureUuids randomUUID Math_random l).
Proof.
  intros s. unfold ensureUuids, liftRand.
  destruct (rmapM _ l (ss_rng s)) as [x n]. eexists _, _. split; reflexivity.
Qed.

Lemma runs_quiet {A} (p : SyncM A) (k : A -> SyncM unit) (t : list string) :
  quiet p -> (forall x, runs_tables upsert t (k x)) -> runs_tables upsert t (sbind p k).
Proof.
  intros Hp Hk s. unfold sbind. destruct (Hp s) as (x & s' & E & C). rewrite E.
  specialize (Hk x s'). destruct (k x s') as [r s'']. rewrite C in Hk. exact Hk.
Qed.

Lemma runs_seq (t1 t2 : list string) (m1 m2 : SyncM unit) :
  runs_tables upsert t1 m1 -> runs_tables upsert t2 m2 ->
  runs_tables upsert (t1 ++ t2) (m1 ;;; m2).
Proof.
  intros H1 H2 s. unfold sbind. specialize (H1 s).
  destruct (m1 s) as [[e|[]] s1].
  - destruct H1 as (new & Hc & Hok & [[Hr _] | (pre & c & e' & Hn & Hpre & Hc' & Hr & Ht)]);
      [discriminate|].
    exists new. split; [exact Hc|]. split; [exact Hok|].
    right. exists pre, c, e'. repeat split; try assumption.
    rewrite Ht. rewrite firstn_app.
    assert (Hle : (length new <= length t1)%nat).
    { pose proof (f_equal (@length _) Ht) as L.
      rewrite length_map, length_firstn in L. lia. }
    replace (length new - length t1)%nat with 0%nat by lia.
    rewrite app_nil_r. reflexivity.
  - destruct H1 as (new1 & Hc1 & Hok1 & [[_ [Ht1 Hs1]] | (pre & c & e' & _ & _ & _ & Hr & _)]);
      [|discriminate].
    specialize (H2 s1). destruct (m2 s1) as [r s2].
    destruct H2 as (new2 & Hc2 & Hok2 & Halt).
    exists (new1 ++ new2). split; [rewrite Hc2, Hc1, app_assoc; reflexivity|].
    split; [apply Forall_app; split; assumption|].
    destruct Halt as [[Hr [Ht2 Hs2]] | (pre & c & e' & Hn & Hpre & Hc' & Hr & Ht2)].
    + left. split; [exact Hr|]. split.
      * rewrite map_app, Ht1, Ht2. reflexivity.
      * apply Forall_app. split; assumption.
    + right. exists (new1 ++ pre), c, e'. split; [rewrite Hn, app_assoc; reflexivity|].
      split; [apply Forall_app; split; assumption|].
      split; [exact Hc'|]. split; [exact Hr|].
      assert (Hl : length t1 = length new1) by (rewrite <- Ht1, length_map; reflexivity).
      rewrite map_app, Ht1, Ht2, length_app, firstn_app.
      rewrite (firstn_all2 t1) by lia.
      replace (length new1 + length new2 - length t1)%nat with (length new2) by lia.
      reflexivity.
Qed.

Lemma runs_collection {A} `{HasId A} (l : list A) (table : string)
    (upd : AppState -> list A -> AppState) (row : A -> json) :
  runs_tables upsert (if l then [] else [table])
    (match l with
     | [] => sret tt
     | _ => fixed <-- ensureUuids randomUUID Math_random l ;;
            modify_app (fun a => upd a fixed) ;;;
            upsert_or_throw upsert table (map row fixed)
     end).
Proof.
  destruct l as [|x r]; [exact runs_ret|].
  apply runs_quiet; [apply quiet_ensureUuids|]. intros fixed.
  apply runs_quiet; [apply quiet_modify_app|]. intros _.
  apply runs_upsert.
Qed.

Lemma sync_body_runs (st : AppState) :
  runs_tables upsert (planned_tables st) (sync_body randomUUID Math_random upsert st).
Proof.
  unfold sync_body, planned_tables.
  apply runs_seq; [apply runs_collection|].
  apply runs_seq; [apply runs_collection|].
  apply runs_seq; [apply runs_collection|].
  apply runs_seq; [apply runs_upsert|].
  apply runs_collection.
Qed.
End PushOrder.

(** C7. A confirmed push on a connected store issues its upserts in the
    fixed order products, vouchers, affiliates, store settings, payment
    methods. Each collection other than settings is pushed only when it
    holds at least one record. The call log only grows. If every upsert
    succeeds the push reports success. Otherwise the first upsert that
    reports an error is the last call made: no later table is pushed,
    the calls before it succeeded and stay in the log, and the push fails
    with that error's message. *)
Theorem handleSync_push_order (randomUUID : option (nat -> string)) (Math_random : nat -> Q)
    (upsert : string -> list json -> option string) (s : SyncSt) :
  match handleSync randomUUID Math_random upsert true true s with
  | (out, s') =>
      exists new, ss_calls s' = ss_calls s ++ new /\ Forall (call_ok upsert) new /\
      ((out = Uploaded /\ map uc_table new = planned_tables (ss_app s) /\
        Forall call_succeeded new) \/
       (exists pre c e, new = pre ++ [c] /\ Forall call_succeeded pre /\
          uc_error c = Some e /\ out = UploadFailed e /\
          map uc_table new = firstn (length new) (planned_tables (ss_app s))))
  end.
Proof.
  unfold handleSync. cbn [negb].
  pose proof (sync_body_runs randomUUID Math_random upsert (ss_app s) s) as H.
  destruct (sync_body randomUUID Math_random upsert (ss_app s) s) as [[e|[]] s'].
  - destruct H as (new & Hc & Hok & [[Hr _] | (pre & c & e' & Hn & Hpre & Hc' & Hr & Ht)]);
      [discriminate|].
    injection Hr as <-.
    exists new. split; [exact Hc|]. split; [exact Hok|].
    right. exists pre, c, e. repeat split; assumption.
  - destruct H as (new & Hc & Hok & [[_ [Ht Hs]] | (pre & c & e' & _ & _ & _ & Hr & _)]);
      [|discriminate].
    exists new. split; [exact Hc|]. split; [exact Hok|].
    left. repeat split; assumption.
Qed.

(** C6 does not hold as stated. A successful pull from a remote whose
    [payment_methods] table is empty leaves the local non-empty payment
    methods in place, in memory and in [localStorage]. The code skips that
    step when [payData.length] is 0. Likewise, when the settings row is
    missing the local settings stay. *)
Lemma pull_empty_payments_counterexample :
  let ps := mkPullState local_store (set ∅ STORAGE_KEYS_PAYMENTS [BANK_BCA]) None false in
  let ps' := fetchData empty_remote ps in
  ps_fetchError ps' = None /\ ps_connected ps' = true /\
  rm_payments empty_remote = inr [] /\
  st_paymentMethods (ps_app ps') = [BANK_BCA] /\
  ps_ls ps' !! STORAGE_KEYS_PAYMENTS = Some (encode [BANK_BCA]) /\
  st_settings (ps_app ps') = st_settings local_store.
Proof. vm_compute. repeat split. Qed.

(** C6, as the code does it. Take a pull in which no table reports an error
    (a missing settings row is not an error). Products, vouchers and
    affiliates are replaced by the mapped remote rows in memory and in
    [localStorage], also when the remote list is empty. Settings are
    replaced by the remote row merged over the local settings, keeping the
    local [supabaseUrl] and [supabaseKey]; with no row they stay as they
    were. Payment methods are replaced only when the remote list is
    non-empty. No other key is written. Afterwards the store is connected
    and carries no fetch error. *)
Theorem fetchData_success (r : Remote) (ps : PullState)
    (prodData : list ProductRow) (vouchData : list VoucherRow)
    (affData : list AffiliateRow) (payData : list PaymentRow)
    (Hp : rm_products r = inr prodData) (Hv : rm_vouchers r = inr vouchData)
    (Ha : rm_affiliates r = inr affData) (Hpay : rm_payments r = inr payData) :
  let ps' := fetchData r ps in
  let s0 := st_settings (ps_app ps) in
  let settings' := match rm_settings r with
                   | Some row => mergeSettings s0 row
                   | None => s0
                   end in
  let pays' := if payData then st_paymentMethods (ps_app ps) else map mapPayment payData in
  ps_fetchError ps' = None /\ ps_connected ps' = true /\
  ps_app ps' = mkAppState settings' (map mapProduct prodData) (map mapVoucher vouchData)
                 (map mapAffiliate affData) pays' /\
  s_supabaseUrl settings' = s_supabaseUrl s0 /\ s_supabaseKey settings' = s_supabaseKey s0 /\
  ps_ls ps' !! STORAGE_KEYS_PRODUCTS = Some (encode (map mapProduct prodData)) /\
  ps_ls ps' !! STORAGE_KEYS_VOUCHERS = Some (encode (map mapVoucher vouchData)) /\
  ps_ls ps' !! STORAGE_KEYS_AFFILIATES = Some (encode (map mapAffiliate affData)) /\
  ps_ls ps' !! STORAGE_KEYS_SETTINGS =
    (if rm_settings r then Some (encode settings') else ps_ls ps !! STORAGE_KEYS_SETTINGS) /\
  ps_ls ps' !! STORAGE_KEYS_PAYMENTS =
    (if payData then ps_ls ps !! STORAGE_KEYS_PAYMENTS
     else Some (encode (map mapPayment payData))) /\
  (forall k, k <> STORAGE_KEYS_PRODUCTS -> k <> STORAGE_KEYS_VOUCHERS ->
     k <> STORAGE_KEYS_AFFILIATES -> k <> STORAGE_KEYS_SETTINGS ->
     k <> STORAGE_KEYS_PAYMENTS -> ps_ls ps' !! k = ps_ls ps !! k).
Proof.
  intros ps' s0 settings' pays'. subst ps' settings' pays'.
  unfold fetchData. rewrite Hp, Hv, Ha, Hpay.
  destruct (rm_settings r) as [row|], payData as [|py pys]; cbn;
    unfold set;
    (split; [reflexivity|]); (split; [reflexivity|]); (split; [reflexivity|]);
    (split; [reflexivity|]); (split; [reflexivity|]);
    unfold STORAGE_KEYS_PRODUCTS, STORAGE_KEYS_VOUCHERS, STORAGE_KEYS_AFFILIATES,
      STORAGE_KEYS_SETTINGS, STORAGE_KEYS_PAYMENTS;
    repeat split;
    try (intros k H1 H2 H3 H4 H5);
    repeat first [ rewrite lookup_insert_eq
                 | rewrite lookup_insert_ne by (congruence || discriminate) ];
    reflexivity.
Qed.

Lemma fetchData_success_witness :
  rm_products empty_remote = inr [] /\ rm_vouchers empty_remote = inr [] /\
  rm_affiliates empty_remote = inr [] /\ rm_payments empty_remote = inr [] /\
  (let ps := mkPullState local_store ∅ None false in
   let ps' := fetchData empty_remote ps in
   let s0 := st_settings (ps_app ps) in
   let settings' := match rm_settings empty_remote with
                    | Some row => mergeSettings s0 row
                    | None => s0
                    end in
   let pays' := if ([] : list PaymentRow) then st_paymentMethods (ps_app ps)
                else map mapPayment [] in
   ps_fetchError ps' = None /\ ps_connected ps' = true /\
   ps_app ps' = mkAppState settings' (map mapProduct []) (map mapVoucher [])
                  (map mapAffiliate []) pays' /\
   s_supabaseUrl settings' = s_supabaseUrl s0 /\ s_supabaseKey settings' = s_supabaseKey s0 /\
   ps_ls ps' !! STORAGE_KEYS_PRODUCTS = Some (encode (map mapProduct [])) /\
   ps_ls ps' !! STORAGE_KEYS_VOUCHERS = Some (encode (map mapVoucher [])) /\
   ps_ls ps' !! STORAGE_KEYS_AFFILIATES = Some (encode (map mapAffiliate [])) /\
   ps_ls ps' !! STORAGE_KEYS_SETTINGS =
     (if rm_settings empty_remote then Some (encode settings')
      else ps_ls ps !! STORAGE_KEYS_SETTINGS) /\
   ps_ls ps' !! STORAGE_KEYS_PAYMENTS =
     (if ([] : list PaymentRow) then ps_ls ps !! STORAGE_KEYS_PAYMENTS
      else Some (encode (map mapPayment []))) /\
   (forall k, k <> STORAGE_KEYS_PRODUCTS -> k <> STORAGE_KEYS_VOUCHERS ->
      k <> STORAGE_KEYS_AFFILIATES -> k <> STORAGE_KEYS_SETTINGS ->
      k <> STORAGE_KEYS_PAYMENTS -> ps_ls ps' !! k = ps_ls ps !! k)).
Proof.
  split; [reflexivity|]. split; [reflexivity|]. split; [reflexivity|].
  split; [reflexivity|].
  exact (fetchData_success empty_remote (mkPullState local_store ∅ None false) [] [] [] []
           eq_refl eq_refl eq_refl eq_refl).
Defined.

(* ------------------------------------------------------------------ *)
(** ** Code-level properties of the handlers and services *)

Lemma find_none_iff {A} (f : A -> bool) (l : list A) :
  List.find f l = None <-> forall x, In x l -> f x = false.
Proof.
  split.
  - apply find_none.
  - intros H. destruct (List.find f l) as [x|] eqn:E; [|reflexivity].
    apply find_some in E as [Hin Hx]. rewrite (H x Hin) in Hx. discriminate.
Qed.

(** Applying a voucher code ([handleApplyVoucher]). An empty code keeps the
    voucher applied before. A non-empty code applies a voucher from the
    list that is active and whose code equals the upper-cased input; when
    no such voucher exists the applied voucher is cleared. *)
Theorem applyVoucher_spec (toUpperCase : string -> string) (voucherCode : string)
    (vouchers : list Voucher) (appliedVoucher : option Voucher) :
  (voucherCode = EmptyString ->
     handleApplyVoucher toUpperCase voucherCode vouchers appliedVoucher = appliedVoucher) /\
  (voucherCode <> EmptyString ->
     (forall v, handleApplyVoucher toUpperCase voucherCode vouchers appliedVoucher = Some v ->
        In v vouchers /\ v_isActive v = true /\ v_code v = toUpperCase voucherCode) /\
     (handleApplyVoucher toUpperCase voucherCode vouchers appliedVoucher = None <->
        forall v, In v vouchers -> v_isActive v = true -> v_code v <> toUpperCase voucherCode)).
Proof.
  unfold handleApplyVoucher. split.
  - intros ->. reflexivity.
  - intros Hne. apply String.eqb_neq in Hne. rewrite Hne. split.
    + intros v Hv. apply find_some in Hv as [Hin Hv].
      apply andb_true_iff in Hv as [Hc Ha]. apply String.eqb_eq in Hc. auto.
    + rewrite find_none_iff. split.
      * intros H v Hin Ha Hc. specialize (H v Hin).
        rewrite Hc, String.eqb_refl, Ha in H. discriminate.
      * intros H v Hin. destruct (v_isActive v) eqn:Ha; [|apply andb_false_r].
        rewrite andb_true_r. apply String.eqb_neq. exact (H v Hin Ha).
Qed.

(** Roles granted by the login form ([handleLogin]). The admin role is
    granted exactly for the username and password [admin]/[admin]. An
    affiliate session is opened only for an active affiliate of the list
    whose code equals the upper-cased username and whose password matches,
    under that affiliate's name and id. A customer session carries the
    typed username and needs a non-empty username and password. *)
Theorem login_roles (toUpperCase : string -> string) (username password : string)
    (affiliates : list Affiliate) (u : User) (route : string)
    (H : handleLogin toUpperCase username password affiliates = LoggedIn u route) :
  (u_role u = ADMIN <-> username = "admin"%string /\ password = "admin"%string) /\
  (u_role u = AFFILIATE ->
     exists a, In a affiliates /\ a_isActive a = true /\
       a_code a = toUpperCase username /\ a_password a = password /\
       u = mkUser AFFILIATE (a_name a) (Some (a_id a)) /\ route = "/account"%string) /\
  (u_role u = CUSTOMER ->
     u = mkUser CUSTOMER username None /\ username <> EmptyString /\
     password <> EmptyString /\ route = "/"%string).
Proof.
  unfold handleLogin in H.
  destruct (String.eqb username "admin" && String.eqb password "admin") eqn:Eadm.
  - injection H as <- <-. apply andb_true_iff in Eadm as [E1 E2].
    apply String.eqb_eq in E1, E2. simpl.
    split; [tauto|]. split; intros; discriminate.
  - assert (Hna : ~ (username = "admin"%string /\ password = "admin"%string)).
    { intros [-> ->]. discriminate. }
    destruct (List.find _ affiliates) as [a|] eqn:Ef.
    + apply find_some in Ef as [Hin Hm].
      apply andb_true_iff in Hm as [Hc Hp]. apply String.eqb_eq in Hc, Hp.
      destruct (a_isActive a) eqn:Hact; simpl in H; [|discriminate].
      injection H as <- <-. simpl.
      split; [split; [discriminate | tauto]|].
      split; [|discriminate].
      intros _. exists a. auto 7.
    + destruct (String.eqb username EmptyString) eqn:Eu,
               (String.eqb password EmptyString) eqn:Ep; simpl in H; try discriminate.
      injection H as <- <-. simpl.
      apply String.eqb_neq in Eu, Ep.
      split; [split; [discriminate | tauto]|].
      split; [discriminate|]. auto.
Qed.

Lemma login_roles_witness :
  handleLogin upper "partner1" "123" [PARTNER1]
    = LoggedIn (mkUser AFFILIATE "Partner Satu" (Some "a1")) "/account" /\
  let u := mkUser AFFILIATE "Partner Satu" (Some "a1") in
  (u_role u = ADMIN <-> "partner1"%string = "admin"%string /\ "123"%string = "admin"%string) /\
  (u_role u = AFFILIATE ->
     exists a, In a [PARTNER1] /\ a_isActive a = true /\
       a_code a = upper "partner1" /\ a_password a = "123"%string /\
       u = mkUser AFFILIATE (a_name a) (Some (a_id a)) /\ "/account"%string = "/account"%string) /\
  (u_role u = CUSTOMER ->
     u = mkUser CUSTOMER "partner1" None /\ "partner1"%string <> EmptyString /\
     "123"%string <> EmptyString /\ "/account"%string = "/"%string).
Proof.
  assert (H : handleLogin upper "partner1" "123" [PARTNER1]
                = LoggedIn (mkUser AFFILIATE "Partner Satu" (Some "a1")) "/account")
    by reflexivity.
  split; [exact H|].
  exact (login_roles upper "partner1" "123" [PARTNER1] _ _ H).
Defined.

(** Login when no active affiliate matches the typed code and password
    (and the credentials are not [admin]/[admin]). If some inactive
    affiliate matches, the login is refused with the inactive-account
    alert: it does not fall back to a customer login. If none matches, any
    non-empty username and password open a customer session, the password
    not being checked against anything; an empty username or password
    opens no session. *)
Theorem login_no_active_affiliate (toUpperCase : string -> string)
    (username password : string) (affiliates : list Affiliate)
    (Hadm : ~ (username = "admin"%string /\ password = "admin"%string))
    (Hinact : forall a, In a affiliates ->
       login_matches toUpperCase username password a = true -> a_isActive a = false) :
  ((exists a, In a affiliates /\ login_matches toUpperCase username password a = true) ->
     handleLogin toUpperCase username password affiliates
       = LoginAlert "Akun affiliate non-aktif.") /\
  ((forall a, In a affiliates -> login_matches toUpperCase username password a = false) ->
     username <> EmptyString -> password <> EmptyString ->
     handleLogin toUpperCase username password affiliates
       = LoggedIn (mkUser CUSTOMER username None) "/") /\
  (username = EmptyString \/ password = EmptyString ->
     exists message, handleLogin toUpperCase username password affiliates = LoginAlert message).
Proof.
  assert (Eadm : (String.eqb username "admin" && String.eqb password "admin") = false).
  { destruct (String.eqb username "admin") eqn:E1, (String.eqb password "admin") eqn:E2;
      try reflexivity.
    apply String.eqb_eq in E1, E2. exfalso. exact (Hadm (conj E1 E2)). }
  unfold handleLogin. rewrite Eadm. fold (login_matches toUpperCase username password).
  split; [|split].
  - intros (a & Hin & Hm).
    destruct (List.find _ affiliates) as [b|] eqn:Ef.
    + apply find_some in Ef as [Hb Hmb]. rewrite (Hinact b Hb Hmb). reflexivity.
    + rewrite (find_none _ _ Ef a Hin) in Hm. discriminate.
  - intros Hnone Hu Hp. apply find_none_iff in Hnone. rewrite Hnone.
    apply String.eqb_neq in Hu, Hp. rewrite Hu, Hp. reflexivity.
  - intros Hempty.
    destruct (List.find _ affiliates) as [b|] eqn:Ef.
    + apply find_some in Ef as [Hb Hmb]. rewrite (Hinact b Hb Hmb). eexists. reflexivity.
    + destruct Hempty as [-> | ->].
      * eexists. reflexivity.
      * rewrite andb_false_r. eexists. reflexivity.
Qed.

Lemma login_no_active_affiliate_witness :
  ~ ("lama"%string = "admin"%string /\ "pw"%string = "admin"%string) /\
  (forall a, In a [retired_partner] ->
     login_matches upper "lama" "pw" a = true -> a_isActive a = false) /\
  handleLogin upper "lama" "pw" [retired_partner] = LoginAlert "Akun affiliate non-aktif.".
Proof.
  assert (Hadm : ~ ("lama"%string = "admin"%string /\ "pw"%string = "admin"%string))
    by (intros [H _]; discriminate H).
  assert (Hinact : forall a, In a [retired_partner] ->
            login_matches upper "lama" "pw" a = true -> a_isActive a = false).
  { intros a [<-|[]] _. reflexivity. }
  split; [exact Hadm|]. split; [exact Hinact|].
  apply (proj1 (login_no_active_affiliate upper "lama" "pw" [retired_partner] Hadm Hinact)).
  exists retired_partner. split; [left; reflexivity | reflexivity].
Defined.

(** Editing through the admin forms (the form holds an id). The collection
    keeps its length and order; a record whose id differs from the form's
    is left as it is; a record with the form's id becomes the record
    overlaid with the form's fields and keeps that id. No id is drawn. *)
Theorem admin_edit_in_place (toUpperCase : string -> string)
    (randomUUID : option (nat -> string)) (Math_random : nat -> Q) (now : string)
    (cp : PartialProduct) (products : list Product)
    (cv : PartialVoucher) (vouchers : list Voucher)
    (ca : PartialAffiliate) (affiliates : list Affiliate) (n : nat)
    (ip iv ia : string)
    (Hp : truthy_str (cp_name cp) = true /\ truthy_num (cp_price cp) = true /\
          cp_id cp = Some ip /\ ip <> EmptyString)
    (Hv : truthy_str (cv_code cv) = true /\ truthy_q (cv_value cv) = true /\
          cv_id cv = Some iv /\ iv <> EmptyString)
    (Ha : truthy_str (ca_name ca) = true /\ truthy_str (ca_code ca) = true /\
          truthy_str (ca_password ca) = true /\ ca_id ca = Some ia /\ ia <> EmptyString) :
  (exists l, productSave randomUUID Math_random now cp products n = (Some l, n) /\
     Forall2 (fun p q => if String.eqb (p_id p) ip
                         then q = mergeProduct p cp /\ p_id q = ip else q = p) products l) /\
  (exists l, voucherSave toUpperCase randomUUID Math_random cv vouchers n = (Some l, n) /\
     Forall2 (fun v w => if String.eqb (v_id v) iv
                         then w = mergeVoucher v cv /\ v_id w = iv else w = v) vouchers l) /\
  (exists l, affiliateSave toUpperCase randomUUID Math_random ca affiliates n = (Some l, n) /\
     Forall2 (fun a b => if String.eqb (a_id a) ia
                         then b = mergeAffiliate a ca /\ a_id b = ia else b = a) affiliates l).
Proof.
  destruct Hp as (Hpn & Hpp & Hpi & Hpe), Hv as (Hvc & Hvv & Hvi & Hve),
           Ha as (Han & Hac & Hap & Hai & Hae).
  split; [|split].
  - unfold productSave. rewrite Hpn, Hpp, Hpi. simpl.
    apply String.eqb_neq in Hpe. rewrite Hpe. simpl.
    eexists. split; [reflexivity|].
    induction products as [|p ps IH]; simpl; constructor; [|exact IH].
    destruct (String.eqb (p_id p) ip); [|reflexivity].
    split; [reflexivity|]. unfold mergeProduct. rewrite Hpi. reflexivity.
  - unfold voucherSave. rewrite Hvc, Hvv, Hvi. simpl.
    apply String.eqb_neq in Hve. rewrite Hve. simpl.
    eexists. split; [reflexivity|].
    induction vouchers as [|v vs IH]; simpl; constructor; [|exact IH].
    destruct (String.eqb (v_id v) iv); [|reflexivity].
    split; [reflexivity|]. unfold mergeVoucher. rewrite Hvi. reflexivity.
  - unfold affiliateSave. rewrite Han, Hac, Hap, Hai. simpl.
    apply String.eqb_neq in Hae. rewrite Hae. simpl.
    eexists. split; [reflexivity|].
    induction affiliates as [|a As IH]; simpl; constructor; [|exact IH].
    destruct (String.eqb (a_id a) ia); [|reflexivity].
    split; [reflexivity|]. unfold mergeAffiliate. rewrite Hai. reflexivity.
Qed.

(** Adding through the admin forms (the form holds no id). The new record
    is appended after the existing ones, and its id is a fresh draw of
    [generateUUID], so a valid UUID, provided [Math.random] lies in [0, 1)
    and [crypto.randomUUID], when present, returns canonical ids. A new
    product takes the typed name and price; it has a discount price only
    when a non-zero one was typed, and category ["General"] when none was.
    A new voucher's code is the upper-cased typed code, its type is
    [FIXED] unless chosen, and it is active unless set otherwise. A new
    affiliate's code is upper-cased, it is active with zero earnings, and
    its commission rate is the typed one, or [10] when that is missing or
    zero. *)
Theorem admin_add_appends (toUpperCase : string -> string)
    (randomUUID : option (nat -> string)) (Math_random : nat -> Q) (now : string)
    (HR : forall k, (0 <= Math_random k /\ Math_random k < 1)%Q)
    (HC : forall g k, randomUUID = Some g -> canonical_uuid (g k)) :
  (forall cp products n,
     truthy_str (cp_name cp) = true -> truthy_num (cp_price cp) = true ->
     truthy_str (cp_id cp) = false ->
     exists np, fst (productSave randomUUID Math_random now cp products n)
                  = Some (products ++ [np]) /\
       isValidUUID (p_id np) = true /\
       Some (p_name np) = cp_name cp /\ Some (p_price np) = cp_price cp /\
       p_discountPrice np = (if truthy_num (cp_discountPrice cp)
                             then cp_discountPrice cp else None) /\
       (truthy_str (cp_category cp) = false -> p_category np = "General"%string)) /\
  (forall cv vouchers n,
     truthy_str (cv_code cv) = true -> truthy_q (cv_value cv) = true ->
     truthy_str (cv_id cv) = false ->
     exists nv, fst (voucherSave toUpperCase randomUUID Math_random cv vouchers n)
                  = Some (vouchers ++ [nv]) /\
       isValidUUID (v_id nv) = true /\
       v_code nv = toUpperCase (or_empty (cv_code cv)) /\
       Some (v_value nv) = cv_value cv /\
       v_type nv = override (cv_type cv) FIXED /\
       v_isActive nv = override (cv_isActive cv) true) /\
  (forall ca affiliates n,
     truthy_str (ca_name ca) = true -> truthy_str (ca_code ca) = true ->
     truthy_str (ca_password ca) = true -> truthy_str (ca_id ca) = false ->
     exists na, fst (affiliateSave toUpperCase randomUUID Math_random ca affiliates n)
                  = Some (affiliates ++ [na]) /\
       isValidUUID (a_id na) = true /\
       a_code na = toUpperCase (or_empty (ca_code ca)) /\
       a_isActive na = true /\ a_totalEarnings na = 0%Q /\
       (truthy_q (ca_commissionRate ca) = false -> a_commissionRate na = 10%Q) /\
       (truthy_q (ca_commissionRate ca) = true ->
          Some (a_commissionRate na) = ca_commissionRate ca)).
Proof.
  pose proof (generateUUID_valid randomUUID Math_random HR HC) as G.
  split; [|split].
  - intros cp products n Hn Hp Hi. unfold productSave. rewrite Hn, Hp, Hi. simpl.
    unfold rbind, rret. specialize (G n).
    destruct (generateUUID randomUUID Math_random n) as [newId n']. simpl in *.
    eexists. split; [reflexivity|]. simpl. split; [exact G|].
    destruct (cp_name cp) as [nm|]; [|discriminate]. destruct (cp_price cp) as [pr|]; [|discriminate].
    split; [reflexivity|]. split; [reflexivity|]. split; [reflexivity|].
    intros Hc. unfold or_str. destruct (cp_category cp) as [c|]; [|reflexivity].
    simpl in Hc. destruct (String.eqb c EmptyString); [reflexivity | discriminate].
  - intros cv vouchers n Hc Hv Hi. unfold voucherSave. rewrite Hc, Hv, Hi. simpl.
    unfold rbind, rret. specialize (G n).
    destruct (generateUUID randomUUID Math_random n) as [newId n']. simpl in *.
    eexists. split; [reflexivity|]. simpl. split; [exact G|].
    split; [reflexivity|].
    destruct (cv_value cv) as [q|]; [|discriminate]. split; [reflexivity|].
    split; reflexivity.
  - intros ca affiliates n Hn Hc Hp Hi. unfold affiliateSave. rewrite Hn, Hc, Hp, Hi. simpl.
    unfold rbind, rret. specialize (G n).
    destruct (generateUUID randomUUID Math_random n) as [newId n']. simpl in *.
    eexists. split; [reflexivity|]. simpl. split; [exact G|].
    split; [reflexivity|]. split; [reflexivity|]. split; [reflexivity|].
    split.
    + intros Hr. rewrite Hr. reflexivity.
    + intros Hr. rewrite Hr. destruct (ca_commissionRate ca); [reflexivity | discriminate].
Qed.

Lemma admin_edit_in_place_witness :
  (exists l, productSave None (fun _ => 1 # 2) "0" edit_product_form [ui_kit; ebook] 0%nat
               = (Some l, 0%nat)) /\
  (exists l, voucherSave upper None (fun _ => 1 # 2) edit_voucher_form [DISKON10; HEMAT20K] 0%nat
               = (Some l, 0%nat)) /\
  (exists l, affiliateSave upper None (fun _ => 1 # 2) edit_affiliate_form [PARTNER1] 0%nat
               = (Some l, 0%nat)).
Proof.
  destruct (admin_edit_in_place upper None (fun _ => 1 # 2) "0"
              edit_product_form [ui_kit; ebook] edit_voucher_form [DISKON10; HEMAT20K]
              edit_affiliate_form [PARTNER1] 0%nat
              "550e8400-e29b-41d4-a716-446655440001" "v1" "a1")
    as [(l1 & E1 & _) [(l2 & E2 & _) (l3 & E3 & _)]].
  - split; [reflexivity|]. split; [reflexivity|]. split; [reflexivity|discriminate].
  - split; [reflexivity|]. split; [reflexivity|]. split; [reflexivity|discriminate].
  - split; [reflexivity|]. split; [reflexivity|]. split; [reflexivity|].
    split; [reflexivity|discriminate].
  - split; [exists l1; exact E1|]. split; [exists l2; exact E2|exists l3; exact E3].
Defined.

Lemma admin_add_appends_witness :
  (exists np, fst (productSave None (fun _ => 1 # 2) "0" new_product_form [ui_kit] 0%nat)
                = Some ([ui_kit] ++ [np]) /\ isValidUUID (p_id np) = true) /\
  (exists nv, fst (voucherSave upper None (fun _ => 1 # 2) new_voucher_form [DISKON10] 0%nat)
                = Some ([DISKON10] ++ [nv]) /\ isValidUUID (v_id nv) = true) /\
  (exists na, fst (affiliateSave upper None (fun _ => 1 # 2) new_affiliate_form [PARTNER1] 0%nat)
                = Some ([PARTNER1] ++ [na]) /\ isValidUUID (a_id na) = true).
Proof.
  destruct (admin_add_appends upper None (fun _ => 1 # 2) "0"
              ltac:(intros; split; vm_compute; [discriminate|reflexivity])
              ltac:(intros g k E; discriminate E))
    as [Hp [Hv Ha]].
  destruct (Hp new_product_form [ui_kit] 0%nat eq_refl eq_refl eq_refl) as (np & E1 & V1 & _).
  destruct (Hv new_voucher_form [DISKON10] 0%nat eq_refl eq_refl eq_refl) as (nv & E2 & V2 & _).
  destruct (Ha new_affiliate_form [PARTNER1] 0%nat eq_refl eq_refl eq_refl eq_refl)
    as (na & E3 & V3 & _).
  split; [exists np; split; assumption|].
  split; [exists nv; split; assumption|exists na; split; assumption].
Defined.





(** [removeFromCart] after [addToCart]. Removing a product's id undoes
    every earlier add of that product: the result is the cart without the
    product, whatever [addToCart] did. Removal keeps the cart invariant
    (distinct ids, positive quantities) and leaves no item with the
    removed id. *)
Theorem removeFromCart_spec (product : Product) (cart : list CartItem) :
  removeFromCart (p_id product) (addToCart product cart)
    = removeFromCart (p_id product) cart /\
  (forall id, cart_inv cart -> cart_inv (removeFromCart id cart)) /\
  (forall id, Forall (fun i => p_id (ci_product i) <> id) (removeFromCart id cart)).
Proof.
  split; [|split].
  - unfold addToCart, removeFromCart.
    destruct (List.find _ cart) as [e|].
    + induction cart as [|x r IH]; [reflexivity|]. cbn [List.map].
      rewrite !filter_cons.
      destruct (String.eqb (p_id (ci_product x)) (p_id product)) eqn:E; cbn; rewrite ?E; cbn.
      * exact IH.
      * f_equal. exact IH.
    + rewrite filter_app, filter_cons. cbn. rewrite String.eqb_refl. cbn.
      apply app_nil_r.
  - intros id [Hnd Hpos]. unfold removeFromCart. split.
    + clear Hpos. induction cart as [|x r IH]; [exact Hnd|].
      cbn [List.map] in Hnd. apply NoDup_cons in Hnd as [Hx Hr].
      rewrite filter_cons.
      destruct (String.eqb (p_id (ci_product x)) id) eqn:E; cbn; [exact (IH Hr)|].
      apply NoDup_cons. split; [|exact (IH Hr)].
      intros Hin. apply Hx. rewrite list_elem_of_In in Hin |- *.
      apply in_map_iff in Hin as (y & Hy & Hyin). apply in_map_iff. exists y.
      split; [exact Hy|]. rewrite <- list_elem_of_In, list_elem_of_filter in Hyin.
      rewrite <- list_elem_of_In. apply Hyin.
    + apply Forall_forall. intros y Hy.
      rewrite list_elem_of_filter in Hy. destruct Hy as [_ Hy].
      rewrite Forall_forall in Hpos. apply Hpos. exact Hy.
  - intros id. apply Forall_forall. intros y Hy. unfold removeFromCart in Hy.
    rewrite list_elem_of_filter in Hy. destruct Hy as [Hy _].
    destruct (String.eqb_spec (p_id (ci_product y)) id); [cbn in Hy; contradiction|assumption].
Qed.

Lemma Array_from_Set_fold (xs acc : list string) :
  NoDup acc ->
  exists rest,
    fold_left (fun acc x => if existsb (String.eqb x) acc then acc else acc ++ [x]) xs acc
      = acc ++ rest /\
    NoDup (acc ++ rest) /\
    (forall c, In c (acc ++ rest) <-> In c acc \/ In c xs).
Proof.
  revert acc. induction xs as [|x xs IH]; intros acc Hnd; simpl.
  - exists []. rewrite app_nil_r. split; [reflexivity|]. split; [exact Hnd|]. tauto.
  - destruct (existsb (String.eqb x) acc) eqn:E.
    + destruct (IH acc Hnd) as (rest & Hf & Hn & Hm). exists rest.
      split; [exact Hf|]. split; [exact Hn|]. intros c. rewrite Hm.
      apply existsb_exists in E as (y & Hy & Hxy). apply String.eqb_eq in Hxy. subst y.
      split; [tauto|]. intros [H|[H|H]]; auto. subst; auto.
    + assert (Hnd' : NoDup (acc ++ [x])).
      { apply NoDup_app. split; [exact Hnd|]. split; [|apply NoDup_singleton].
        intros y Hy Hyx. apply list_elem_of_singleton in Hyx. subst y.
        apply list_elem_of_In in Hy.
        assert (existsb (String.eqb x) acc = true) as E'
          by (apply existsb_exists; exists x; split; [exact Hy|apply String.eqb_refl]).
        congruence. }
      destruct (IH (acc ++ [x]) Hnd') as (rest & Hf & Hn & Hm).
      exists (x :: rest). rewrite <- app_assoc in Hf, Hn, Hm. simpl in Hf, Hn, Hm.
      split; [exact Hf|]. split; [exact Hn|]. intros c. rewrite Hm, in_app_iff. simpl. tauto.
Qed.

Lemma Array_from_Set_spec (xs : list string) :
  NoDup (Array_from_Set xs) /\ (forall c, In c (Array_from_Set xs) <-> In c xs).
Proof.
  destruct (Array_from_Set_fold xs [] (NoDup_nil_2)) as (rest & Hf & Hn & Hm).
  unfold Array_from_Set. rewrite Hf. split; [exact Hn|]. intros c. rewrite Hm. simpl. tauto.
Qed.

(** [AdminProducts.availableCategories], the options of the category
    selector: no option appears twice; the options are exactly the four
    defaults and the categories of the products; the four defaults come
    first, in their order. *)
Theorem availableCategories_spec (products : list Product) :
  NoDup (availableCategories products) /\
  (forall c, In c (availableCategories products) <->
     In c ["Software"; "E-book"; "Course"; "Template"] \/
     exists p, In p products /\ p_category p = c) /\
  firstn 4 (availableCategories products) = ["Software"; "E-book"; "Course"; "Template"].
Proof.
  destruct (Array_from_Set_spec (["Software"; "E-book"; "Course"; "Template"] ++ map p_category products))
    as [Hn Hm].
  split; [exact Hn|]. split.
  - intros c. unfold availableCategories. rewrite Hm, in_app_iff, in_map_iff.
    split; intros [H|(p & H1 & H2)]; auto; right; exists p; auto.
  - unfold availableCategories, Array_from_Set. rewrite fold_left_app.
    change (fold_left _ ["Software"; "E-book"; "Course"; "Template"] [])
      with ["Software"; "E-book"; "Course"; "Template"].
    destruct (Array_from_Set_fold (map p_category products) ["Software"; "E-book"; "Course"; "Template"])
      as (rest & Hf & _ & _).
    + apply NoDup_ListNoDup. repeat constructor; simpl; intuition discriminate.
    + rewrite Hf. reflexivity.
Qed.

(** The category tabs of [CustomerHome] and the products they show. The
    tab "All" shows every product. Every other tab shows a non-empty list,
    all of that category. The tabs are distinct exactly when no product
    has the category "All". *)
Theorem categories_filter_spec (products : list Product) :
  filteredProducts "All" products = products /\
  (forall c, c <> "All" -> In c (categories products) ->
     filteredProducts c products <> [] /\
     Forall (fun p => p_category p = c) (filteredProducts c products)) /\
  (NoDup (categories products) <-> Forall (fun p => p_category p <> "All") products).
Proof.
  destruct (Array_from_Set_spec (map p_category products)) as [Hn Hm].
  split; [reflexivity|]. split.
  - intros c Hc Hin. unfold filteredProducts.
    destruct (String.eqb_spec c "All") as [E|_]; [contradiction|].
    destruct Hin as [H|Hin]; [congruence|].
    apply Hm, in_map_iff in Hin as (p & Hp & Hpin). split.
    + intros Hnil. assert (Hf : p ∈ filter (fun p => String.eqb (p_category p) c) products).
      { apply list_elem_of_filter. split; [|apply list_elem_of_In, Hpin].
        rewrite Hp, String.eqb_refl. exact I. }
      rewrite Hnil in Hf. inversion Hf.
    + apply Forall_forall. intros q Hq. apply list_elem_of_filter in Hq as [Hq _].
      destruct (String.eqb_spec (p_category q) c); [assumption|contradiction].
  - unfold categories. rewrite NoDup_cons. split.
    + intros [Hnot _]. apply Forall_forall. intros p Hp E. apply Hnot.
      apply list_elem_of_In, Hm, in_map_iff. exists p. split; [exact E|].
      apply list_elem_of_In, Hp.
    + intros Hall. split; [|exact Hn].
      intros Hin. apply list_elem_of_In, Hm, in_map_iff in Hin as (p & Hp & Hpin).
      rewrite Forall_forall in Hall. apply (Hall p); [apply list_elem_of_In, Hpin|exact Hp].
Qed.

Lemma CartItem_roundtrip (i : CartItem) : decode (encode i) = Some i.
Proof.
  destruct i as [[pi n im c d pr dp f ip] q].
  destruct dp, f, ip; reflexivity.
Qed.

Lemma OrderStatus_roundtrip (s : OrderStatus) : decode (encode s) = Some s.
Proof. destruct s; reflexivity. Qed.

Lemma Order_roundtrip (o : Order) : decode (encode o) = Some o.
Proof.
  destruct o as [i items t cn cw pm st dt].
  cbn [encode decode codec_Order].
  unfold req. cbn [jget String.eqb Ascii.eqb Bool.eqb].
  cbn [o_id o_items o_total o_customerName o_customerWhatsapp o_paymentMethod o_status o_date
       mbind option_bind].
  rewrite (list_roundtrip CartItem_roundtrip items), (OrderStatus_roundtrip st).
  reflexivity.
Qed.

Lemma get_set_frame (env : Env) {T U} `{Codec T} `{Codec U} (ls : LocalStorage)
    (k k' : string) (v : T) (d : U) :
  k <> k' -> get env (set ls k v) k' d = get env ls k' d.
Proof.
  intros Hk. unfold get, set, get_json. rewrite lookup_insert_ne by exact Hk. reflexivity.
Qed.

(** [DataService.saveOrder] puts the new order in front of the stored
    ones: when the stored orders read as [os], afterwards [getOrders]
    reads [order :: os], and every other getter reads what it read
    before. *)
Theorem saveOrder_prepends (env : Env) (order : Order) (ls : LocalStorage) (os : list Order)
    (H : getOrders env ls = Some os) :
  exists ls', saveOrder env order ls = Some ls' /\
    getOrders env ls' = Some (order :: os) /\
    getSettings env ls' = getSettings env ls /\
    getProducts env ls' = getProducts env ls /\
    getPayments env ls' = getPayments env ls /\
    getVouchers env ls' = getVouchers env ls /\
    getAffiliates env ls' = getAffiliates env ls.
Proof.
  unfold getOrders in H. unfold saveOrder. rewrite H. cbn [mbind option_bind].
  eexists. split; [reflexivity|]. split.
  - unfold getOrders. rewrite get_set_other by discriminate.
    apply list_roundtrip, Order_roundtrip.
  - unfold getSettings, getProducts, getPayments, getVouchers, getAffiliates.
    repeat split; apply get_set_frame; discriminate.
Qed.

Lemma saveOrder_prepends_witness :
  getOrders (mkEnv None None) order_store = Some [old_order] /\
  exists ls', saveOrder (mkEnv None None) sample_order order_store = Some ls' /\
    getOrders (mkEnv None None) ls' = Some [sample_order; old_order].
Proof.
  assert (H : getOrders (mkEnv None None) order_store = Some [old_order])
    by (vm_compute; reflexivity).
  split; [exact H|].
  destruct (saveOrder_prepends (mkEnv None None) sample_order order_store [old_order] H)
    as (ls' & H1 & H2 & _).
  exists ls'. split; [exact H1|exact H2].
Defined.

(** The [supabase] client of [App] is created only from two non-empty
    credentials, and [createClient] gets exactly those. On the seed
    settings ([initialSettings]) this needs both [VITE_SUPABASE_URL] and
    [VITE_SUPABASE_ANON_KEY] set and non-empty. *)
Theorem supabaseClient_requires_credentials {Client : Type}
    (createClient : string -> string -> option Client) (env : Env) (settings : StoreSettings) :
  (forall c, supabaseClient createClient settings = Some c ->
     exists url key, s_supabaseUrl settings = Some url /\ s_supabaseKey settings = Some key /\
       url <> "" /\ key <> "" /\ createClient url key = Some c) /\
  (forall c, supabaseClient createClient (initialSettings env) = Some c ->
     exists url key, VITE_SUPABASE_URL env = Some url /\ VITE_SUPABASE_ANON_KEY env = Some key /\
       url <> "" /\ key <> "" /\ createClient url key = Some c).
Proof.
  split.
  - intros c Hc. unfold supabaseClient in Hc.
    destruct (s_supabaseUrl settings) as [u|], (s_supabaseKey settings) as [k|];
      cbn in Hc; rewrite ?andb_false_r in Hc; try discriminate Hc.
    destruct (String.eqb_spec u ""), (String.eqb_spec k ""); cbn in Hc; try discriminate Hc.
    exists u, k. auto.
  - intros c Hc. unfold supabaseClient, initialSettings in Hc. cbn [s_supabaseUrl s_supabaseKey] in Hc.
    destruct (VITE_SUPABASE_URL env) as [u|], (VITE_SUPABASE_ANON_KEY env) as [k|];
      cbn in Hc; rewrite ?andb_false_r in Hc; try discriminate Hc.
    destruct (String.eqb_spec u ""), (String.eqb_spec k ""); cbn in Hc; try discriminate Hc.
    exists u, k. auto.
Qed.

(** [fetchData] on a failing query. The stored [fetchError] is the message
    of the first query that fails, or ["Unknown error"] when that message
    is empty. After a failure the connection flag keeps
    its previous value and the payment methods stay as they were, in memory
    and in [localStorage]. A products error changes nothing but the error.
    A later error keeps the products already pulled. *)
Theorem fetchData_failure (r : Remote) (ps : PullState) :
  let ps' := fetchData r ps in
  ps_fetchError ps' = pull_error r /\
  (ps_fetchError ps' <> None ->
     ps_connected ps' = ps_connected ps /\
     st_paymentMethods (ps_app ps') = st_paymentMethods (ps_app ps) /\
     ps_ls ps' !! STORAGE_KEYS_PAYMENTS = ps_ls ps !! STORAGE_KEYS_PAYMENTS) /\
  (forall e, rm_products r = inl e ->
     ps_app ps' = ps_app ps /\ ps_ls ps' = ps_ls ps) /\
  (forall prodData e, rm_products r = inr prodData -> rm_vouchers r = inl e ->
     st_products (ps_app ps') = map mapProduct prodData).
Proof.
  cbv zeta. unfold fetchData, pull_error, set.
  destruct (rm_products r) as [e|pd]; cbn.
  { split; [reflexivity|]. split; [auto|]. split; [auto|]. intros; discriminate. }
  destruct (rm_vouchers r) as [e|vd]; cbn.
  { split; [reflexivity|]. split.
    - intros _. split; [reflexivity|]. split; [reflexivity|].
      rewrite lookup_insert_ne by discriminate. reflexivity.
    - split; [intros; discriminate|]. intros pd' e' E _. injection E as <-. reflexivity. }
  destruct (rm_affiliates r) as [e|ad]; cbn.
  { split; [reflexivity|]. split.
    - intros _. split; [reflexivity|]. split; [reflexivity|].
      rewrite !lookup_insert_ne by discriminate. reflexivity.
    - split; intros; discriminate. }
  destruct (rm_settings r) as [sr|], (rm_payments r) as [e|[|py pys]]; cbn;
    (split; [reflexivity|]);
    (split; [|split; intros; discriminate]);
    intros Hn; try (exfalso; apply Hn; reflexivity);
    (split; [reflexivity|]); (split; [reflexivity|]);
    rewrite !lookup_insert_ne by discriminate; reflexivity.
Qed.

(** Record updates through [set_id] and reads through [get_id] agree. *)
Section IdLaws.
Context {A : Type} `{HasId A}.
Hypothesis set_get : forall x : A, set_id x (get_id x) = x.
Hypothesis get_set : forall (x : A) i, get_id (set_id x i) = i.

Lemma ids_only_refl (l : list A) : ids_only l l.
Proof.
  unfold ids_only. induction l as [|x r IH]; constructor; [|exact IH].
  symmetry. apply set_get.
Qed.

Lemma ensureUuids_ids_only randomUUID Math_random (l : list A) (s : SyncSt) :
  match ensureUuids randomUUID Math_random l s with
  | (inr x, s') => ids_only l x /\ ss_app s' = ss_app s /\ ss_calls s' = ss_calls s
  | (inl _, _) => False
  end.
Proof.
  unfold ensureUuids, liftRand.
  assert (HF : forall n, ids_only l (fst (rmapM (ensureUuid randomUUID Math_random) l n))).
  { intros n. unfold ids_only. revert n. induction l as [|x r IH]; intros n; [constructor|].
    cbn [rmapM]. unfold rbind, rret.
    destruct (ensureUuid randomUUID Math_random x n) as [y n1] eqn:E1.
    destruct (rmapM (ensureUuid randomUUID Math_random) r n1) as [ys n2] eqn:E2. cbn.
    constructor.
    - unfold ensureUuid, rbind, rret in E1.
      destruct (negb (isValidUUID (get_id x))).
      + destruct (generateUUID randomUUID Math_random n) as [i n'].
        injection E1 as <- _. rewrite get_set. reflexivity.
      + injection E1 as <- _. symmetry. apply set_get.
    - specialize (IH n1). rewrite E2 in IH. exact IH. }
  specialize (HF (ss_rng s)).
  destruct (rmapM (ensureUuid randomUUID Math_random) l (ss_rng s)) as [x n].
  cbn. auto.
Qed.
End IdLaws.

Lemma set_get_Product (x : Product) : set_id x (get_id x) = x.
Proof. destruct x; reflexivity. Qed.
Lemma get_set_Product (x : Product) i : get_id (set_id x i) = i.
Proof. reflexivity. Qed.
Lemma set_get_Voucher (x : Voucher) : set_id x (get_id x) = x.
Proof. destruct x; reflexivity. Qed.
Lemma get_set_Voucher (x : Voucher) i : get_id (set_id x i) = i.
Proof. reflexivity. Qed.
Lemma set_get_Affiliate (x : Affiliate) : set_id x (get_id x) = x.
Proof. destruct x; reflexivity. Qed.
Lemma get_set_Affiliate (x : Affiliate) i : get_id (set_id x i) = i.
Proof. reflexivity. Qed.
Lemma set_get_PaymentMethod (x : PaymentMethod) : set_id x (get_id x) = x.
Proof. destruct x; reflexivity. Qed.
Lemma get_set_PaymentMethod (x : PaymentMethod) i : get_id (set_id x i) = i.
Proof. reflexivity. Qed.

Lemma sbind_pres {X Y} (P : SyncSt -> Prop) (m : SyncM X) (k : X -> SyncM Y) :
  (forall s, P s -> P (snd (m s))) -> (forall x s, P s -> P (snd (k x s))) ->
  forall s, P s -> P (snd (sbind m k s)).
Proof.
  intros Hm Hk s Hs. unfold sbind. specialize (Hm s Hs).
  destruct (m s) as [[e|x] s']; cbn in *; auto.
Qed.

Lemma upsert_or_throw_app upsert t rows (s : SyncSt) :
  ss_app (snd (upsert_or_throw upsert t rows s)) = ss_app s.
Proof. unfold upsert_or_throw. destruct (upsert t rows); reflexivity. Qed.

Lemma push_block_pres {A} `{HasId A}
    (set_get : forall x : A, set_id x (get_id x) = x)
    (get_set : forall (x : A) i, get_id (set_id x i) = i)
    randomUUID Math_random upsert (l : list A) (upd : AppState -> list A -> AppState)
    (t : string) (f : A -> json) (P : AppState -> Prop) :
  (forall a x, P a -> ids_only l x -> P (upd a x)) ->
  forall s, P (ss_app s) ->
  P (ss_app (snd ((fixed <-- ensureUuids randomUUID Math_random l ;;
                  modify_app (fun a => upd a fixed) ;;;
                  upsert_or_throw upsert t (map f fixed)) s))).
Proof.
  intros Hupd s Hs. unfold sbind at 1.
  pose proof (ensureUuids_ids_only set_get get_set randomUUID Math_random l s) as E.
  destruct (ensureUuids randomUUID Math_random l s) as [[e|x] s1]; [contradiction|].
  destruct E as (Hx & Happ & _).
  unfold sbind, modify_app. cbn. rewrite upsert_or_throw_app. cbn.
  apply Hupd; [rewrite Happ; exact Hs|exact Hx].
Qed.

(** [handleSync] changes the in-memory collections only in record ids:
    whatever the remote answers and wherever the push stops, the settings
    are the same and every product, voucher, affiliate and payment method
    is the one before with at most its id replaced, in the same order. *)
Theorem handleSync_changes_only_ids randomUUID Math_random upsert connected confirmed
    (s : SyncSt) :
  app_ids_only (ss_app s)
    (ss_app (snd (handleSync randomUUID Math_random upsert connected confirmed s))).
Proof.
  set (st := ss_app s).
  assert (Hrefl : app_ids_only st st).
  { repeat split; apply ids_only_refl;
      auto using set_get_Product, set_get_Voucher, set_get_Affiliate, set_get_PaymentMethod. }
  unfold handleSync.
  destruct connected; [|exact Hrefl]. destruct confirmed; [|exact Hrefl]. cbn [negb].
  assert (Hb : forall s0, ss_app s0 = st ->
            app_ids_only st (ss_app (snd (sync_body randomUUID Math_random upsert st s0)))).
  { intros s0 Hs0.
    set (P := fun s1 : SyncSt => app_ids_only st (ss_app s1)).
    change (P (snd (sync_body randomUUID Math_random upsert st s0))).
    assert (Hs0' : P s0) by (unfold P; rewrite Hs0; exact Hrefl).
    revert s0 Hs0 Hs0'. intros s0 _. revert s0. unfold sync_body.
    repeat (apply sbind_pres; [| intros _]).
    - intros s1 Hs1. destruct (st_products st) as [|p ps] eqn:Ep; [exact Hs1|].
      rewrite <- Ep. unfold P.
      apply (push_block_pres set_get_Product get_set_Product); [|exact Hs1].
      intros a x (H1 & H2 & H3 & H4 & H5) Hx. repeat split; assumption.
    - intros s1 Hs1. destruct (st_vouchers st) as [|v vs] eqn:Ev; [exact Hs1|].
      rewrite <- Ev. unfold P.
      apply (push_block_pres set_get_Voucher get_set_Voucher); [|exact Hs1].
      intros a x (H1 & H2 & H3 & H4 & H5) Hx. repeat split; assumption.
    - intros s1 Hs1. destruct (st_affiliates st) as [|v vs] eqn:Ev; [exact Hs1|].
      rewrite <- Ev. unfold P.
      apply (push_block_pres set_get_Affiliate get_set_Affiliate); [|exact Hs1].
      intros a x (H1 & H2 & H3 & H4 & H5) Hx. repeat split; assumption.
    - intros s1 Hs1. unfold P. rewrite upsert_or_throw_app. exact Hs1.
    - intros s1 Hs1. destruct (st_paymentMethods st) as [|v vs] eqn:Ev; [exact Hs1|].
      rewrite <- Ev. unfold P.
      apply (push_block_pres set_get_PaymentMethod get_set_PaymentMethod); [|exact Hs1].
      intros a x (H1 & H2 & H3 & H4 & H5) Hx. repeat split; assumption. }
  specialize (Hb s eq_refl).
  change (ss_app s) with st.
  destruct (sync_body randomUUID Math_random upsert st s) as [[e|u] s'] eqn:E; exact Hb.
Qed.
